(** * Test run orchestration and debug synchronisation

    A shallow embedding of the Angular test runner
    ([AngularTestRunner]: [prepareArgs], [getReporters], [getConfigName],
    [createWaitServer], [debug]) and of the continuous run handler
    ([createRunHandler]) of the extension, with the properties of the
    specification stated over it.

    JavaScript strings are lists of characters ([str]); a string literal of
    the source is written as a Rocq string literal and coerced.  A [Set] is
    a duplicate-free list in insertion order, which is the order JavaScript
    iterates it in. *)

From Stdlib Require Import Ascii String List ZArith Lia Bool Arith.
Import ListNotations.

Set Implicit Arguments.

Open Scope string_scope.
Open Scope list_scope.
Open Scope nat_scope.

(* ===================================================================== *)
(** * JavaScript strings *)
(* ===================================================================== *)

Module JS.

Definition str := list ascii.

Definition lit (s : string) : str := list_ascii_of_string s.
Coercion lit : string >-> str.

Definition str_eqb (a b : str) : bool :=
  if list_eq_dec ascii_dec a b then true else false.

(** A computation that either returns or throws. *)
Inductive result (A : Type) : Type :=
| Ok (a : A)
| Throw (msg : str).
Arguments Ok {A} a.
Arguments Throw {A} msg.

Definition bind {A B} (m : result A) (k : A -> result B) : result B :=
  match m with
  | Ok a => k a
  | Throw e => Throw e
  end.

Notation "x <- m ;; k" := (bind m (fun x => k))
  (at level 61, m at next level, right associativity).

(** [s.startsWith(p)], also the test behind [includes] and [indexOf]. *)
Fixpoint startsWith (p s : str) : bool :=
  match p, s with
  | [], _ => true
  | _ :: _, [] => false
  | a :: p', b :: s' => Ascii.eqb a b && startsWith p' s'
  end.

(** [s.indexOf(p)] from the start of [s]; [None] is JavaScript's [-1]. *)
Fixpoint find_from (p s : str) : option nat :=
  if startsWith p s then Some 0
  else match s with
       | [] => None
       | _ :: s' => option_map S (find_from p s')
       end.

(** [s.indexOf(p, from)] for [0 <= from]. *)
Definition indexOf (s p : str) (from : nat) : Z :=
  if length s <? from then (if startsWith p [] then Z.of_nat (length s) else -1)%Z
  else match find_from p (skipn from s) with
       | Some i => Z.of_nat (from + i)
       | None => (-1)%Z
       end.

Definition includes (s p : str) : bool :=
  match find_from p s with Some _ => true | None => false end.

(** [s.slice(start, end)]: a negative index counts from the end, both are
    clamped to [0 .. length], and an empty range gives the empty string. *)
Definition clamp_index (len i : Z) : Z :=
  if (i <? 0)%Z then Z.max (len + i) 0 else Z.min i len.

Definition slice (s : str) (start stop : Z) : str :=
  let len := Z.of_nat (length s) in
  let a := clamp_index len start in
  let b := clamp_index len stop in
  firstn (Z.to_nat (b - a)) (skipn (Z.to_nat a) s).

(** [s.split(sep)] for a non-empty separator: the pieces between the
    occurrences of [sep], scanned left to right; always at least one piece.
    [go] carries the piece being read, reversed. *)
Fixpoint split_go (sep : str) (n : nat) (acc : str) (s : str) : list str :=
  match s with
  | [] => [rev acc]
  | c :: s' =>
      match n with
      | S n' => split_go sep n' acc s'          (* inside a separator *)
      | 0 =>
          if startsWith sep s
          then rev acc :: split_go sep (length sep - 1) [] s'
          else split_go sep 0 (c :: acc) s'
      end
  end.

Definition split (s sep : str) : list str := split_go sep 0 [] s.

(** [arr.join(sep)]. *)
Fixpoint join (sep : str) (parts : list str) : str :=
  match parts with
  | [] => []
  | [p] => p
  | p :: rest => p ++ sep ++ join sep rest
  end.

(** [s.replace(p, '')] with a one-character string pattern: the first
    occurrence only is removed. *)
Fixpoint remove_first (c : ascii) (s : str) : str :=
  match s with
  | [] => []
  | x :: s' => if Ascii.eqb x c then s' else x :: remove_first c s'
  end.

(** White space and line terminators of the Latin-1 range, as [trim] strips
    them. *)
Definition is_space (c : ascii) : bool :=
  let n := nat_of_ascii c in
  ((9 <=? n) && (n <=? 13)) || (n =? 32) || (n =? 160).

Fixpoint trimStart (s : str) : str :=
  match s with
  | [] => []
  | c :: s' => if is_space c then trimStart s' else s
  end.

Definition trim (s : str) : str := rev (trimStart (rev (trimStart s))).

(** [s.replace(/\\/g, '/')]. *)
Definition backslashes_to_slashes (s : str) : str :=
  map (fun c => if Ascii.eqb c "\" then "/"%char else c) s.

End JS.

Import JS.

(* ===================================================================== *)
(** * Regular expressions, as the consumer of [--grep] reads them *)
(* ===================================================================== *)

(** The fragment of JavaScript's pattern language (without flags) that the
    generated patterns and the examples of the specification use: literal
    characters, identity escapes of syntax characters, [.], the quantifiers
    [*], [+] and [?] (greedy or lazy), alternation, groups and the
    assertions [^] and [$].  Anything else ([[...]], [{n,m}], class escapes,
    look-around) is outside the fragment and [compile] answers [None]. *)

Module Regex.

Inductive token : Type :=
| TChar (c : ascii)
| TDot | TStar | TPlus | TQuest | TBar | TLParen | TRParen | TCaret | TDollar.

(** SyntaxCharacter of the pattern grammar. *)
Definition syntax_chars : str := "^$\.*+?()[]{}|".

Definition is_syntax (c : ascii) : bool := existsb (Ascii.eqb c) syntax_chars.

(** [\c] is read as the character [c] itself for a syntax character, for
    [/] and for [-]. *)
Definition identity_escape (c : ascii) : bool :=
  is_syntax c || Ascii.eqb c "/" || Ascii.eqb c "-".

Definition single (c : ascii) : option token :=
  if Ascii.eqb c "." then Some TDot
  else if Ascii.eqb c "*" then Some TStar
  else if Ascii.eqb c "+" then Some TPlus
  else if Ascii.eqb c "?" then Some TQuest
  else if Ascii.eqb c "|" then Some TBar
  else if Ascii.eqb c "(" then Some TLParen
  else if Ascii.eqb c ")" then Some TRParen
  else if Ascii.eqb c "^" then Some TCaret
  else if Ascii.eqb c "$" then Some TDollar
  else if is_syntax c then None
  else Some (TChar c).

Fixpoint tokenize (s : str) : option (list token) :=
  match s with
  | [] => Some []
  | c :: s' =>
      if Ascii.eqb c "\" then
        match s' with
        | [] => None
        | e :: s'' =>
            if identity_escape e
            then option_map (cons (TChar e)) (tokenize s'')
            else None
        end
      else
        match single c with
        | Some t => option_map (cons t) (tokenize s')
        | None => None
        end
  end.

Inductive regex : Type :=
| Eps
| Chr (c : ascii)
| Any
| Bol
| Eol
| Seq (r1 r2 : regex)
| Alt (r1 r2 : regex)
| Star (r : regex)
| Plus (r : regex)
| Opt (r : regex)
| Group (r : regex).

(** What a quantifier may still be applied to. *)
Inductive tkind : Type := KAtom | KQuant | KLazy | KAssert.

(** A disjunction being read: the finished alternatives and the terms of the
    current one, both latest first. *)
Record frame : Type := mkFrame {
  alts : list regex;
  cur : list (regex * tkind)
}.

Definition empty_frame : frame := mkFrame [] [].

Definition push (t : regex * tkind) (f : frame) : frame :=
  mkFrame (alts f) (t :: cur f).

Definition seq_of (rs : list regex) : regex := fold_right Seq Eps rs.

Fixpoint alt_of (r : regex) (rs : list regex) : regex :=
  match rs with
  | [] => r
  | r' :: rs' => Alt r (alt_of r' rs')
  end.

Definition close_alt (c : list (regex * tkind)) : regex :=
  seq_of (rev (map fst c)).

Definition close_frame (f : frame) : regex :=
  match rev (close_alt (cur f) :: alts f) with
  | [] => Eps
  | r :: rs => alt_of r rs
  end.

Definition quantify (q : regex -> regex) (f : frame) : option frame :=
  match cur f with
  | (r, KAtom) :: rest => Some (mkFrame (alts f) ((q r, KQuant) :: rest))
  | _ => None
  end.

Definition question (f : frame) : option frame :=
  match cur f with
  | (r, KAtom) :: rest => Some (mkFrame (alts f) ((Opt r, KQuant) :: rest))
  | (r, KQuant) :: rest => Some (mkFrame (alts f) ((r, KLazy) :: rest))
  | _ => None
  end.

Fixpoint parse_loop (ts : list token) (top : frame) (stack : list frame)
  : option regex :=
  match ts with
  | [] => match stack with
          | [] => Some (close_frame top)
          | _ :: _ => None
          end
  | t :: ts' =>
      match t with
      | TChar c => parse_loop ts' (push (Chr c, KAtom) top) stack
      | TDot => parse_loop ts' (push (Any, KAtom) top) stack
      | TCaret => parse_loop ts' (push (Bol, KAssert) top) stack
      | TDollar => parse_loop ts' (push (Eol, KAssert) top) stack
      | TStar => match quantify Star top with
                 | Some f => parse_loop ts' f stack
                 | None => None
                 end
      | TPlus => match quantify Plus top with
                 | Some f => parse_loop ts' f stack
                 | None => None
                 end
      | TQuest => match question top with
                  | Some f => parse_loop ts' f stack
                  | None => None
                  end
      | TBar => parse_loop ts' (mkFrame (close_alt (cur top) :: alts top) []) stack
      | TLParen => parse_loop ts' empty_frame (top :: stack)
      | TRParen =>
          match stack with
          | [] => None
          | parent :: stack' =>
              parse_loop ts' (push (Group (close_frame top), KAtom) parent) stack'
          end
      end
  end.

Definition compile (src : str) : option regex :=
  match tokenize src with
  | Some ts => parse_loop ts empty_frame []
  | None => None
  end.

(** ** Matching

    A position of the subject string is the pair of "still at index 0" and
    the rest of the string.  [ends r b s] lists the positions a match of [r]
    starting at [(b, s)] can end at. *)

Definition pos := (bool * str)%type.

Definition line_terminator (c : ascii) : bool :=
  (nat_of_ascii c =? 10) || (nat_of_ascii c =? 13).

(** Iterations of a starred term; an iteration that consumes nothing is
    not repeated. *)
Fixpoint star_iter (step : bool -> str -> list pos) (fuel : nat)
  (b : bool) (s : str) : list pos :=
  (b, s) ::
  match fuel with
  | 0 => []
  | S n =>
      flat_map (fun p : pos =>
                  if length (snd p) <? length s
                  then star_iter step n (fst p) (snd p)
                  else [])
               (step b s)
  end.

Fixpoint ends (r : regex) (b : bool) (s : str) : list pos :=
  match r with
  | Eps => [(b, s)]
  | Chr c => match s with
             | x :: s' => if Ascii.eqb x c then [(false, s')] else []
             | [] => []
             end
  | Any => match s with
           | x :: s' => if line_terminator x then [] else [(false, s')]
           | [] => []
           end
  | Bol => if b then [(b, s)] else []
  | Eol => match s with [] => [(b, s)] | _ :: _ => [] end
  | Seq r1 r2 => flat_map (fun p : pos => ends r2 (fst p) (snd p)) (ends r1 b s)
  | Alt r1 r2 => ends r1 b s ++ ends r2 b s
  | Star r' => star_iter (ends r') (length s) b s
  | Plus r' =>
      flat_map (fun p : pos => star_iter (ends r') (length (snd p)) (fst p) (snd p))
               (ends r' b s)
  | Opt r' => (b, s) :: ends r' b s
  | Group r' => ends r' b s
  end.

Definition matches_at (r : regex) (b : bool) (s : str) : bool :=
  match ends r b s with [] => false | _ :: _ => true end.

(** [re.test(s)]: a match starting at some index of [s]. *)
Fixpoint search (r : regex) (b : bool) (s : str) : bool :=
  matches_at r b s ||
  match s with
  | [] => false
  | _ :: s' => search r false s'
  end.

Definition test (r : regex) (s : str) : bool := search r true s.

(** The consumer's reading of the [--grep] value: a value written
    [/source/] is the pattern [source]; any other value is itself the
    pattern. *)
Definition grepSource (arg : str) : str :=
  match arg with
  | "/"%char :: rest =>
      match rev rest with
      | "/"%char :: mid => rev mid
      | _ => arg
      end
  | _ => arg
  end.

(** Does the [--grep] value select the test named [name]?  [None] when the
    value is not a pattern of the fragment. *)
Definition grepSelects (arg : str) (name : str) : option bool :=
  option_map (fun r => test r name) (compile (grepSource arg)).

End Regex.

(* ===================================================================== *)
(** * The test tree and the host services the runner reads *)
(* ===================================================================== *)

(** [itemData] associates a test item with a [TestFile], a [TestSuite] or a
    [TestCase] (or nothing); the item carries it here in [data].  A
    [TestFile] holds [workspaceFolder.uri.fsPath] and [uri.fsPath]. *)
Inductive ItemData : Type :=
| TestFile (workspaceFolder fsPath : str)
| TestSuite (fullName : str)
| TestCase (fullName : str).

#[warnings="-register-all"]
Inductive TestItem : Type := mkTestItem {
  uri : option str;            (* [item.uri?.toString()] *)
  data : option ItemData;      (* [itemData.get(item)] *)
  parent : option TestItem
}.

(** What the runner asks of its surroundings: [vscode.workspace.findFiles]
    (the paths of the files found), [vscode.workspace.fs.readFile] followed
    by the decoder, and Node's [path.relative]. *)
Record Host : Type := mkHost {
  findFiles : str -> list str;
  fs_readFile : str -> result str;
  relative : str -> str -> str
}.

(** fileReader.ts: a failed read is logged and gives [undefined]. *)
Definition readFile (h : Host) (filePath : str) : option str :=
  match fs_readFile h filePath with
  | Ok content => Some content
  | Throw _ => None
  end.

(* ===================================================================== *)
(** * The Angular test runner *)
(* ===================================================================== *)

Definition special_chars : str := ".*+-?^${}()|[]\".

(** The character class of [escapeRe]. *)
Definition is_special (c : ascii) : bool := existsb (Ascii.eqb c) special_chars.

(** [s.replace(/[.*+\-?^${}()|[\]\\]/g, '\\$&')] *)
Definition escapeRe (s : str) : str :=
  flat_map (fun c => if is_special c then ["\"%char; c] else [c]) s.

Definition ATTACH_CONFIG_NAME : str := "Attach to VS Code".
Definition DEBUG_TYPE : str := "pwa-chrome".

Inductive TestRunProfileKind : Type := Run | Debug | Coverage.

Record AngularTestRunner : Type := mkRunner {
  workspace : str;             (* [this.workspace.uri.fsPath] *)
  runProfileKind : TestRunProfileKind;
  continuousMode : option bool
}.

Definition getDefaultArgs : list str := ["npm" : str; "test" : str].

(** The config file both [getConfigName] and [getReporters] look up. *)
Definition karmaConfFiles (h : Host) : list str :=
  match findFiles h "karma.conf.ts" with
  | [] => findFiles h "karma.conf.js"
  | files => files
  end.

Definition getConfigName (h : Host) : str :=
  match karmaConfFiles h with
  | [] => []
  | file0 :: _ =>
      let fileParts := split file0 "/" in
      let fileName := last fileParts [] in
      lit "--karma-config=" ++ fileName
  end.

Definition TypeError_split : str :=
  "TypeError: Cannot read properties of undefined (reading 'split')".

(** The text scan of [getReporters] on the content read. *)
Definition scanReporters (content : str) : result str :=
  if includes content "reporters: " then
    let startIndex := indexOf content "reporters: " 0 in
    let endIndex := indexOf content "]" (Z.to_nat startIndex) in
    let arrString := slice content startIndex endIndex in
    match nth_error (split arrString "[") 1 with
    | None => Throw TypeError_split
    | Some reportersString =>
        let reportersNoQuotes :=
          map (fun rep => trim (remove_first "'" (remove_first "'" rep)))
              (split reportersString ", ") in
        Ok (lit "--reporters=" ++ join "," reportersNoQuotes)
    end
  else Ok [].

Definition getReporters (h : Host) : result str :=
  match karmaConfFiles h with
  | [] => Ok []
  | file0 :: _ =>
      match readFile h file0 with
      | None => Ok []
      | Some [] => Ok []
      | Some content => scanReporters content
      end
  end.

(** [x => !!x] on the elements of the argument array: [undefined] and the
    empty string are dropped. *)
Definition truthy (x : option str) : bool :=
  match x with
  | Some (_ :: _) => true
  | _ => false
  end.

Definition keep_truthy (xs : list (option str)) : list str :=
  flat_map (fun x => match x with
                     | Some s => if truthy x then [s] else []
                     | None => []
                     end) xs.

(** [runPaths.add(p)] on a [Set] kept in insertion order. *)
Definition set_add (p : str) (s : list str) : list str :=
  if existsb (str_eqb p) s then s else s ++ [p].

(** [addTestFileRunPath] *)
Definition runPathOf (h : Host) (workspaceFolder fsPath : str) : str :=
  backslashes_to_slashes (relative h workspaceFolder fsPath).

Definition addTestFileRunPath (h : Host) (d : option ItemData)
  (runPaths : list str) : list str :=
  match d with
  | Some (TestFile wf p) => set_add (runPathOf h wf p) runPaths
  | _ => runPaths
  end.

(** [for (let p = ...; p; p = p.parent)], entered at a defined [p]. *)
Fixpoint walkParents (h : Host) (p : TestItem) (runPaths : list str) : list str :=
  let runPaths' := addTestFileRunPath h (data p) runPaths in
  match parent p with
  | None => runPaths'
  | Some p' => walkParents h p' runPaths'
  end.

Definition walkFrom (h : Host) (test : TestItem) (runPaths : list str) : list str :=
  match parent test with
  | None => runPaths
  | Some p => walkParents h p runPaths
  end.

(** The body of [for (const test of filter)], on the pair
    [(grepRe, runPaths)]. *)
Definition visit (h : Host) (acc : list str * list str) (test : TestItem)
  : list str * list str :=
  match data test with
  | Some (TestCase fullName) =>
      (fst acc ++ [escapeRe fullName ++ lit "$"], walkFrom h test (snd acc))
  | Some (TestSuite fullName) =>
      (fst acc ++ [escapeRe fullName ++ lit " "], walkFrom h test (snd acc))
  | Some (TestFile wf p) =>
      (fst acc, set_add (runPathOf h wf p) (snd acc))
  | None => acc
  end.

Definition resolveSelection (h : Host) (sel : list TestItem) : list str * list str :=
  fold_left (visit h) sel ([], []).

Definition grepToken (grepRe : list str) : str :=
  lit "/^(" ++ join "|" grepRe ++ lit ")/".

Definition grepArgs (grepRe : list str) : list str :=
  match grepRe with
  | [] => []
  | _ :: _ => ["--grep" : str; grepToken grepRe]
  end.

Definition runArgs (runPaths : list str) : list str :=
  flat_map (fun p => ["--run" : str; p]) runPaths.

(** The arguments that do not depend on the selection, after
    [args.filter(x => !!x)]. *)
Definition fixedArgs (r : AngularTestRunner) (baseArgs : list str)
  (configName reporters : str) : list str :=
  keep_truthy
    (map Some getDefaultArgs ++
     [Some ("--" : str)] ++
     map Some baseArgs ++
     [Some configName;
      Some reporters;
      Some (match continuousMode r with
            | Some true => "--watch" : str
            | _ => "--no-watch" : str
            end);
      Some ("--browsers=ChromeHeadless" : str);
      match runProfileKind r with
      | Coverage => Some ("--code-coverage" : str)
      | _ => None
      end]).

Definition prepareArgs (h : Host) (r : AngularTestRunner) (baseArgs : list str)
  (filter : option (list TestItem)) : result (list str) :=
  let configName := getConfigName h in
  reporters <- getReporters h ;;
  let args := fixedArgs r baseArgs configName reporters in
  match filter with
  | None => Ok args
  | Some sel =>
      let '(grepRe, runPaths) := resolveSelection h sel in
      Ok (args ++ grepArgs grepRe ++ runArgs runPaths)
  end.

(* ===================================================================== *)
(** * The debug flow: readiness gate, message tracker, root session *)
(* ===================================================================== *)

Module Debugging.

Record DebugConfiguration : Type := mkConfig {
  cfg_name : str;
  cfg_type : str;
  cfg_request : str
}.

(** A debug session; [parentSession] is the identity of the parent.
    Sessions are compared by identity ([===]), which is [sid] here. *)
Record DebugSession : Type := mkSession {
  sid : nat;
  name : str;
  parentSession : option nat
}.

(** A debug-adapter protocol message, as far as the tracker reads it. *)
Record Message : Type := mkMessage {
  type : option str;
  command : option str;
  seq : option nat;
  request_seq : option nat
}.

(** What the flow does to its surroundings, in the order it does it. *)
Inductive Effect : Type :=
| Listen                                  (* [server.listen(0)] *)
| Spawn (commandLine cwd : str)           (* [spawn(args.join(" "), ...)] *)
| RegisterTrackerFactory (debugType : str)
| OnceExit                                (* [cp.once('exit', ...)] *)
| OnDidStartDebugSession                  (* the listener is registered *)
| SocketEnd (socket : nat)                (* [socket.end()] *)
| ServerClose                             (* [server.close()] *)
| ListenerDispose
| FactoryDispose
| StopDebugging (session : option DebugSession).

(** The mutable variables the closures of [debug] and [createWaitServer]
    share once [debug] has returned. *)
Record State : Type := mkState {
  ready : bool;                       (* [let ready] of createWaitServer *)
  onReady : list nat;                 (* sockets subscribed to [onReady] *)
  listening : bool;                   (* the server accepts connections *)
  exited : bool;
  rootSession : option DebugSession;
  listenerActive : bool;              (* [listener] not yet disposed *)
  factoryActive : bool;               (* [factory] not yet disposed *)
  trackers : list (option nat)        (* [initRequestId] of each tracker *)
}.

Definition initial : State :=
  mkState false [] true false None true true [].

(** A small monad for [debug]: the effects so far and a result or an
    exception. *)
Definition M (A : Type) : Type := list Effect -> list Effect * result A.

Definition ret {A} (a : A) : M A := fun log => (log, Ok a).
Definition throw {A} (msg : str) : M A := fun log => (log, Throw msg).
Definition emit (e : Effect) : M unit := fun log => (log ++ [e], Ok tt).
Definition lift {A} (r : result A) : M A := fun log => (log, r).
Definition mbind {A B} (m : M A) (k : A -> M B) : M B :=
  fun log =>
    match m log with
    | (log', Ok a) => k a log'
    | (log', Throw e) => (log', Throw e)
    end.

Notation "x <~ m ;; k" := (mbind m (fun x => k))
  (at level 61, m at next level, right associativity).

Definition createWaitServer : M unit := emit Listen.

(** [debug]: the launch configurations are those of
    [getConfiguration("launch").get("configurations", [])]. *)
Definition debug (h : Host) (r : AngularTestRunner)
  (configurations : option (list DebugConfiguration))
  (baseArgs : list str) (filter : option (list TestItem)) : M State :=
  let configs := match configurations with Some cs => cs | None => [] end in
  match find (fun c => str_eqb (cfg_name c) ATTACH_CONFIG_NAME) configs with
  | None => throw (lit "Could not find launch config " ++ ATTACH_CONFIG_NAME)
  | Some baseConfig =>
      _ <~ createWaitServer ;;
      args <~ lift (prepareArgs h r baseArgs filter) ;;
      _ <~ emit (Spawn (join " " args) (workspace r)) ;;
      _ <~ emit (RegisterTrackerFactory DEBUG_TYPE) ;;
      _ <~ emit OnceExit ;;
      _ <~ emit OnDidStartDebugSession ;;
      ret initial
  end.

Definition runDebug (h : Host) (r : AngularTestRunner)
  (configurations : option (list DebugConfiguration))
  (baseArgs : list str) (filter : option (list TestItem))
  : list Effect * result State :=
  debug h r configurations baseArgs filter [].

(** ** The callbacks *)

Definition set_ready (b : bool) (st : State) : State :=
  mkState b (onReady st) (listening st) (exited st) (rootSession st)
          (listenerActive st) (factoryActive st) (trackers st).

Definition set_onReady (l : list nat) (st : State) : State :=
  mkState (ready st) l (listening st) (exited st) (rootSession st)
          (listenerActive st) (factoryActive st) (trackers st).

Definition set_rootSession (s : option DebugSession) (st : State) : State :=
  mkState (ready st) (onReady st) (listening st) (exited st) s
          (listenerActive st) (factoryActive st) (trackers st).

Definition set_trackers (t : list (option nat)) (st : State) : State :=
  mkState (ready st) (onReady st) (listening st) (exited st) (rootSession st)
          (listenerActive st) (factoryActive st) t.

(** The connection callback of [createServer]. *)
Definition onConnection (socket : nat) (st : State) : State * list Effect :=
  if ready st then (st, [SocketEnd socket])
  else (set_onReady (onReady st ++ [socket]) st, []).

(** [server.ready()]: the flag is set and [onReady] fires, which calls every
    subscribed [() => socket.end()]. *)
Definition server_ready (st : State) : State * list Effect :=
  (set_ready true st, map SocketEnd (onReady st)).

(** [server.dispose()] *)
Definition server_dispose (st : State) : State * list Effect :=
  (mkState (ready st) (onReady st) false (exited st) (rootSession st)
           (listenerActive st) (factoryActive st) (trackers st),
   [ServerClose]).

Definition same_session (p : option nat) (root : option DebugSession) : bool :=
  match p, root with
  | Some i, Some s => i =? sid s
  | _, _ => false
  end.

(** [createDebugAdapterTracker(session)]: a tracker is made only for a
    session whose parent is the root session. *)
Definition createDebugAdapterTracker (session : DebugSession) (st : State) : State :=
  match parentSession session with
  | None => st
  | Some _ =>
      if same_session (parentSession session) (rootSession st)
      then set_trackers (trackers st ++ [None]) st
      else st
  end.

Definition is_launch_or_attach (c : option str) : bool :=
  match c with
  | Some c' => str_eqb c' "launch" || str_eqb c' "attach"
  | None => false
  end.

(** [===] on two possibly undefined numbers. *)
Definition strict_eq (a b : option nat) : bool :=
  match a, b with
  | Some x, Some y => x =? y
  | None, None => true
  | _, _ => false
  end.

Definition is_response (t : option str) : bool :=
  match t with
  | Some t' => str_eqb t' "response"
  | None => false
  end.

Fixpoint set_nth (i : nat) (v : option nat) (l : list (option nat)) : list (option nat) :=
  match l, i with
  | [], _ => []
  | _ :: l', 0 => v :: l'
  | x :: l', S i' => x :: set_nth i' v l'
  end.

(** [onWillReceiveMessage] of tracker [i]. *)
Definition onWillReceiveMessage (i : nat) (m : Message) (st : State) : State :=
  match nth_error (trackers st) i with
  | None => st
  | Some (Some _) => st
  | Some None =>
      if is_launch_or_attach (command m)
      then set_trackers (set_nth i (seq m) (trackers st)) st
      else st
  end.

(** [onDidSendMessage] of tracker [i]. *)
Definition onDidSendMessage (i : nat) (m : Message) (st : State) : State * list Effect :=
  match nth_error (trackers st) i with
  | None => (st, [])
  | Some initRequestId =>
      if is_response (type m) && strict_eq (request_seq m) initRequestId
      then server_ready st
      else (st, [])
  end.

(** The body of the [onDidStartDebugSession] listener. *)
Definition undefined_session (r : option DebugSession) : bool :=
  match r with None => true | Some _ => false end.

Definition sessionListener (s : DebugSession) (st : State) : State * list Effect :=
  if str_eqb (name s) ATTACH_CONFIG_NAME && undefined_session (rootSession st) then
    if exited st
    then (st, [StopDebugging (rootSession st)])
    else (set_rootSession (Some s) st, [])
  else (st, []).

(** The [exit] handler of the subprocess. *)
Definition onExit (st : State) : State * list Effect :=
  (mkState (ready st) (onReady st) false true (rootSession st) false false
           (trackers st),
   [ServerClose; ListenerDispose; FactoryDispose] ++
   match rootSession st with
   | Some s => [StopDebugging (Some s)]
   | None => []
   end).

(** ** What can happen after [debug] has returned *)

Inductive Event : Type :=
| Connect (socket : nat)
| CreateTracker (session : DebugSession)
| WillReceive (tracker : nat) (m : Message)
| DidSend (tracker : nat) (m : Message)
| SessionStarted (s : DebugSession)
| ProcessExit.

(** A callback runs only while it is registered: the server calls
    [onConnection] while it listens, the factory is asked for trackers and
    the session listener is called until they are disposed, and the [exit]
    handler, registered with [once], runs for the first exit only. *)
Definition step (e : Event) (st : State) : State * list Effect :=
  match e with
  | Connect socket => if listening st then onConnection socket st else (st, [])
  | CreateTracker s =>
      if factoryActive st then (createDebugAdapterTracker s st, []) else (st, [])
  | WillReceive i m => (onWillReceiveMessage i m st, [])
  | DidSend i m => onDidSendMessage i m st
  | SessionStarted s => if listenerActive st then sessionListener s st else (st, [])
  | ProcessExit => if exited st then (st, []) else onExit st
  end.

Fixpoint run (tr : list Event) (st : State) : State * list Effect :=
  match tr with
  | [] => (st, [])
  | e :: tr' =>
      let '(st1, out1) := step e st in
      let '(st2, out2) := run tr' st1 in
      (st2, out1 ++ out2)
  end.

(** How often the gate goes from not ready to ready along a trace. *)
Fixpoint transitions (tr : list Event) (st : State) : nat :=
  match tr with
  | [] => 0
  | e :: tr' =>
      let st1 := fst (step e st) in
      (if negb (ready st) && ready st1 then 1 else 0) + transitions tr' st1
  end.

(** How often [rootSession] is assigned along a trace. *)
Fixpoint assignments (tr : list Event) (st : State) : nat :=
  match tr with
  | [] => 0
  | e :: tr' =>
      let st1 := fst (step e st) in
      (match rootSession st, rootSession st1 with
       | None, Some _ => 1
       | Some a, Some b => if sid a =? sid b then 0 else 1
       | Some _, None => 1
       | None, None => 0
       end) + assignments tr' st1
  end.

(** The first session named like the attach configuration that starts
    before the subprocess exits. *)
Fixpoint firstAttach (tr : list Event) : option DebugSession :=
  match tr with
  | [] => None
  | ProcessExit :: _ => None
  | SessionStarted s :: tr' =>
      if str_eqb (name s) ATTACH_CONFIG_NAME then Some s else firstAttach tr'
  | _ :: tr' => firstAttach tr'
  end.

End Debugging.

(* ===================================================================== *)
(** * The continuous run handler *)
(* ===================================================================== *)

Module Continuous.

Record TestRunRequest : Type := mkRequest {
  include : option (list TestItem);
  exclude : option (list TestItem);
  profile : option nat;
  continuous : bool
}.

Record FileChangeEvent : Type := mkChange {
  change_uri : str;            (* [uri.toString()] *)
  removed : bool
}.

(** The variables of one continuous request: [queuedFiles] (a [Set], in
    insertion order), the live timer of [debounced] as the time it is due
    at, whether the listener is still registered, and the requests handed
    to [doTestRun] so far. *)
Record Sched : Type := mkSched {
  queuedFiles : list str;
  debounced : option nat;
  subscribed : bool;
  issued : list TestRunRequest
}.

Definition start : Sched := mkSched [] None true [].

Definition DEBOUNCE : nat := 1000.

Definition has_uri (u : str) (t : TestItem) : bool :=
  match uri t with
  | Some v => str_eqb v u
  | None => false
  end.

(** [queuedFiles.has(u)] *)
Definition has (s : list str) (u : str) : bool := existsb (str_eqb u) s.

(** [queuedFiles.delete(u)] *)
Definition delete (u : str) (s : list str) : list str :=
  List.filter (fun v => negb (str_eqb v u)) s.

(** The guard of the listener: the change is ignored when the request has
    an include list and none of its items is of the changed file. *)
Definition ignored (req : TestRunRequest) (u : str) : bool :=
  match include req with
  | Some inc => negb (existsb (has_uri u) inc)
  | None => false
  end.

(** The listener on [fileChangedEmitter], called at time [now]. *)
Definition onFileChanged (req : TestRunRequest) (now : nat) (e : FileChangeEvent)
  (st : Sched) : Sched :=
  (* clearTimeout(debounced) *)
  let st1 := mkSched (queuedFiles st) None (subscribed st) (issued st) in
  if ignored req (change_uri e) then st1
  else
    let q := if removed e
             then delete (change_uri e) (queuedFiles st1)
             else set_add (change_uri e) (queuedFiles st1) in
    mkSched q (Some (now + DEBOUNCE)) (subscribed st1) (issued st1).

Section Controller.

(** [f => getOrCreateFile(ctrl, vscode.Uri.parse(f))]: the controller's
    item of a test file, [undefined] for a uri that is no test file of a
    workspace folder. *)
Variable getOrCreateFile : str -> option TestItem.

(** The include list of the rerun. *)
Definition rerunInclude (req : TestRunRequest) (queued : list str) : list TestItem :=
  match include req with
  | Some inc =>
      List.filter (fun t => match uri t with
                            | Some u => has queued u
                            | None => false
                            end) inc
  | None =>
      flat_map (fun f => match getOrCreateFile f with
                         | Some item => [item]
                         | None => []
                         end) queued
  end.

(** The callback of [setTimeout]. *)
Definition onTimeout (req : TestRunRequest) (st : Sched) : Sched :=
  let inc := rerunInclude req (queuedFiles st) in
  mkSched [] None (subscribed st)
          (issued st ++ [mkRequest (Some inc) (exclude req) (profile req) true]).

(** Time passes up to [now]: a live timer that is due fires. *)
Definition elapse (req : TestRunRequest) (now : nat) (st : Sched) : Sched :=
  match debounced st with
  | Some due => if due <=? now then onTimeout req st else st
  | None => st
  end.

(** [cancellationToken.onCancellationRequested] *)
Definition onCancel (st : Sched) : Sched :=
  mkSched (queuedFiles st) None false (issued st).

Inductive Input : Type :=
| FileChanged (e : FileChangeEvent)
| Cancelled.

Definition handle (req : TestRunRequest) (now : nat) (i : Input) (st : Sched) : Sched :=
  match i with
  | FileChanged e => if subscribed st then onFileChanged req now e st else st
  | Cancelled => onCancel st
  end.

(** The inputs of a trace carry the time they arrive at. *)
Fixpoint runTrace (req : TestRunRequest) (tr : list (nat * Input)) (st : Sched) : Sched :=
  match tr with
  | [] => st
  | (now, i) :: tr' => runTrace req tr' (handle req now i (elapse req now st))
  end.

End Controller.

Definition add (u : str) : Input := FileChanged (mkChange u false).


End Continuous.

(* ===================================================================== *)
(** * Running without a debugger *)
(* ===================================================================== *)

Module Running.

Import Debugging.

Definition TypeError_workspaceFolders : str :=
  "TypeError: Cannot read properties of undefined".

(** [vscode.workspace.workspaceFolders![0].uri.fsPath] *)
Definition firstWorkspaceFolder (workspaceFolders : option (list str)) : result str :=
  match workspaceFolders with
  | Some (folder :: _) => Ok folder
  | _ => Throw TypeError_workspaceFolders
  end.

(** [run]: the arguments are prepared, then the options of [spawn] are
    evaluated, then the subprocess is spawned; the result stands for the
    [TestOutputScanner] made of the process and the arguments. *)
Definition run (h : Host) (r : AngularTestRunner)
  (workspaceFolders : option (list str))
  (baseArgs : list str) (filter : option (list TestItem)) : M (list str) :=
  args <~ lift (prepareArgs h r baseArgs filter) ;;
  cwd <~ lift (firstWorkspaceFolder workspaceFolders) ;;
  _ <~ emit (Spawn (join " " args) cwd) ;;
  ret args.

Definition runRun (h : Host) (r : AngularTestRunner)
  (workspaceFolders : option (list str))
  (baseArgs : list str) (filter : option (list TestItem))
  : list Effect * result (list str) :=
  run h r workspaceFolders baseArgs filter [].

End Running.

(* ===================================================================== *)
(** * The extension: which runner, which test files *)
(* ===================================================================== *)

Module Extension.

Inductive TestRunner : Type := Karma | Jest | Angular.

Record TextDocument : Type := mkDocument {
  fileName : str;
  docUri : str
}.

Definition baseFileNames : list str := [lit "package.json"; lit "angular.json"].

(** [fileName] after the loop over [baseFileNames]. *)
Definition pickedName (d : TextDocument) : option str :=
  fold_left (fun picked file =>
               if includes (fileName d) file then Some (fileName d) else picked)
            baseFileNames None.

(** [fileName?.includes(w)], [undefined] counting as false. *)
Definition nameIncludes (picked : option str) (w : str) : bool :=
  match picked with
  | Some n => includes n w
  | None => false
  end.

Definition runnerOfName (n : str) : TestRunner :=
  if includes n "karma" then Karma
  else if includes n "jest" then Jest
  else Angular.

Section Readers.

(** [readPackageJson] and [readAngularJson], as [getRunnerName] calls
    them. *)
Variables readPackageJson readAngularJson : TextDocument -> result (option TestRunner).

Definition getRunnerName (d : TextDocument) : result (option TestRunner) :=
  let picked := pickedName d in
  if nameIncludes picked "karma" || nameIncludes picked "jest"
     || nameIncludes picked "angular"
  then Ok (option_map runnerOfName picked)
  else
    match picked with
    | None => Ok None
    | Some n =>
        (* switch (fileName.split("\\").pop()) *)
        let lastPart := last (split n "\") [] in
        if str_eqb lastPart "package.json" then readPackageJson d
        else if str_eqb lastPart "angular.json" then readAngularJson d
        else Ok None
    end.

(** The loops of [activate] that look for the runner: a document is asked
    only while no runner name is known. *)
Fixpoint discover (docs : list TextDocument) (runnerName : option TestRunner)
  : result (option TestRunner) :=
  match docs with
  | [] => Ok runnerName
  | d :: rest =>
      match runnerName with
      | Some _ => discover rest runnerName
      | None => runner <- getRunnerName d ;; discover rest runner
      end
  end.

(** The run profiles [activate] creates: the open text documents are asked
    first; with no answer, the documents of [findFiles('*.json')] followed
    by those of the config pattern. *)
Definition activateProfiles (textDocuments jsonFiles configFiles : list TextDocument)
  : result (list str) :=
  r1 <- discover textDocuments None ;;
  r2 <- match r1 with
        | None => discover (jsonFiles ++ configFiles) None
        | Some _ => Ok r1
        end ;;
  Ok match r2 with
     | Some Angular => [lit "Angular Tests"]
     | _ => []
     end.

End Readers.

(** The [scripts] of a parsed package.json whose values are strings, in
    the order [Object.keys] lists them. *)
Definition Scripts : Type := list (str * str).

Definition classifyScript (v : str) : option TestRunner :=
  if includes v "karma" then Some Karma
  else if includes v "jest" then Some Jest
  else if str_eqb (hd [] (split v " ")) "ng" then Some Angular
  else None.

(** The [forEach] over the keys of [scripts]. *)
Definition scanScripts (scripts : Scripts) : option TestRunner :=
  fold_left (fun testRunner kv =>
               match testRunner with
               | Some _ => testRunner
               | None => if includes (fst kv) "test" then classifyScript (snd kv) else None
               end)
            scripts None.

(** [readPackageJson]; [parseScripts file] is [JSON.parse(file).scripts],
    which throws on a malformed text. *)
Definition readPackageJson (h : Host)
  (parseScripts : str -> result (option Scripts)) (d : TextDocument)
  : result (option TestRunner) :=
  match readFile h (docUri d) with
  | None => Ok None
  | Some file =>
      scriptsDefs <- parseScripts file ;;
      Ok match scriptsDefs with
         | None => None
         | Some scripts => scanScripts scripts
         end
  end.

(** The builder of a project's [architect.test], if both exist. *)
Definition Projects : Type := list (str * option str).

Definition classifyBuilder (builder : str) : option TestRunner :=
  if includes builder "karma" then Some Karma
  else if includes builder "jest" then Some Jest
  else None.

Definition scanProjects (projects : Projects) : option TestRunner :=
  fold_left (fun testRunner kb =>
               match testRunner, snd kb with
               | None, Some builder => classifyBuilder builder
               | _, _ => testRunner
               end)
            projects None.

Definition readAngularJson (h : Host)
  (parseProjects : str -> result Projects) (d : TextDocument)
  : result (option TestRunner) :=
  match readFile h (docUri d) with
  | None => Ok None
  | Some file => projects <- parseProjects file ;; Ok (scanProjects projects)
  end.

(** ** Test files and their items *)

Record Uri : Type := mkUri {
  path : str;
  toString : str;
  fsPath : str
}.

(** [s.endsWith(suffix)] *)
Definition endsWith (s suffix : str) : bool := startsWith (rev suffix) (rev s).

Definition isTestPath (p : str) : bool :=
  (endsWith p ".test.ts" || endsWith p ".integrationTest.ts" || endsWith p ".spec.ts")
  && includes p "/src/".

Section Controller.

(** [vscode.workspace.getWorkspaceFolder] (the folder's [uri.fsPath]) and
    the [getId] of a [TestFile]. *)
Variable getWorkspaceFolder : Uri -> option str.
Variable getId : Uri -> str -> str.

Definition getWorkspaceFolderForTestFile (u : Uri) : option str :=
  if isTestPath (path u) then getWorkspaceFolder u else None.

(** [controller.items.get(id)] on the items kept in insertion order. *)
Fixpoint items_get (id : str) (items : list (str * TestItem)) : option TestItem :=
  match items with
  | [] => None
  | (k, item) :: rest => if str_eqb k id then Some item else items_get id rest
  end.

(** [getOrCreateFile]: the controller's items afterwards and the item
    returned. *)
Definition getOrCreateFile (items : list (str * TestItem)) (u : Uri)
  : list (str * TestItem) * option TestItem :=
  match getWorkspaceFolderForTestFile u with
  | None => (items, None)
  | Some folder =>
      let id := getId u folder in
      match items_get id items with
      | Some existing => (items, Some existing)
      | None =>
          let file := mkTestItem (Some (toString u)) (Some (TestFile folder (fsPath u))) None in
          (items ++ [(id, file)], Some file)
      end
  end.

End Controller.

End Extension.

(* ===================================================================== *)
(** * The tests of a run: [getPendingTestMap] *)
(* ===================================================================== *)

Module Pending.

(** A test item seen from above: its id, what [itemData] holds for it and
    its children, which for a file are the children it has once its content
    has been read ([updateFromDisk] runs before they are gathered). *)
#[warnings="-register-all"]
Inductive TreeItem : Type :=
  mkTreeItem (item_id : str) (item_data : option ItemData) (children : list TreeItem).

Definition item_data_of (t : TreeItem) : option ItemData :=
  match t with mkTreeItem _ d _ => d end.

Definition children_of (t : TreeItem) : list TreeItem :=
  match t with mkTreeItem _ _ cs => cs end.

(** [titleMap.set(key, item)] on a [Map] kept in insertion order: the value
    of a key already present is replaced in place. *)
Fixpoint map_set (key : str) (item : TreeItem) (m : list (str * TreeItem))
  : list (str * TreeItem) :=
  match m with
  | [] => [(key, item)]
  | (k, v) :: rest =>
      if str_eqb k key then (k, item) :: rest else (k, v) :: map_set key item rest
  end.

(** [for (const item of queue.pop()!)]: the queue is kept with the
    collection pushed last at its head. *)
Fixpoint visitItems (items : list TreeItem) (queue : list (list TreeItem))
  (titleMap : list (str * TreeItem))
  : list (list TreeItem) * list (str * TreeItem) :=
  match items with
  | [] => (queue, titleMap)
  | item :: rest =>
      match item_data_of item with
      | Some (TestCase fullName) =>
          visitItems rest queue (map_set fullName item titleMap)
      | _ => visitItems rest (children_of item :: queue) titleMap
      end
  end.

(** [while (queue.length)], for at most [fuel] rounds. *)
Fixpoint loop (fuel : nat) (queue : list (list TreeItem))
  (titleMap : list (str * TreeItem)) : option (list (str * TreeItem)) :=
  match queue with
  | [] => Some titleMap
  | top :: rest =>
      match fuel with
      | 0 => None
      | S fuel' =>
          let '(queue', titleMap') := visitItems top rest titleMap in
          loop fuel' queue' titleMap'
      end
  end.

Fixpoint item_size (t : TreeItem) : nat :=
  match t with
  | mkTreeItem _ _ cs => S (list_sum (map item_size cs))
  end.

Definition collection_size (items : list TreeItem) : nat :=
  S (list_sum (map item_size items)).

Definition queue_size (queue : list (list TreeItem)) : nat :=
  list_sum (map collection_size queue).

Definition getPendingTestMap (tests : list TreeItem) : option (list (str * TreeItem)) :=
  loop (queue_size [tests]) [tests] [].

(** The full names of the test cases at and below an item that are not
    below another test case. *)
Fixpoint pendingNames (t : TreeItem) : list str :=
  match t with
  | mkTreeItem _ (Some (TestCase fullName)) _ => [fullName]
  | mkTreeItem _ _ cs => flat_map pendingNames cs
  end.

End Pending.

(* ===================================================================== *)
(** * Vocabulary of the properties *)
(* ===================================================================== *)

Import Regex.
Import Debugging.
Import Continuous.

Unset Implicit Arguments.

(** ** Lists of match ends *)

Definition nonempty {A} (l : list A) : bool :=
  match l with [] => false | _ :: _ => true end.

Definition null (w : str) : bool :=
  match w with [] => true | _ :: _ => false end.

(** ** The name-match expressions of a selection *)

(** What a selected case or suite asks for, read literally: a case selects
    the test of exactly its name, a suite the tests whose name starts with
    the suite's name and a space. *)
Inductive NameExpr : Type :=
| ECase (fullName : str)
| ESuite (fullName : str).

(** The expression of a selected item: none for a file. *)
Definition nameExpr (t : TestItem) : list NameExpr :=
  match data t with
  | Some (TestCase n) => [ECase n]
  | Some (TestSuite n) => [ESuite n]
  | _ => []
  end.

Definition nameExprs (sel : list TestItem) : list NameExpr := flat_map nameExpr sel.

Definition selects (e : NameExpr) (name : str) : bool :=
  match e with
  | ECase n => str_eqb name n
  | ESuite n => startsWith (n ++ lit " ") name
  end.

(** The string [prepareArgs] pushes for it. *)
Definition expr_str (e : NameExpr) : str :=
  match e with
  | ECase n => escapeRe n ++ lit "$"
  | ESuite n => escapeRe n ++ lit " "
  end.

(** Its tokens, the terms the reader holds after them, and the expression
    they close to. *)
Definition expr_tokens (e : NameExpr) : list token :=
  match e with
  | ECase n => map TChar n ++ [TDollar]
  | ESuite n => map TChar n ++ [TChar " "]
  end.

Definition expr_cur (e : NameExpr) : list (regex * tkind) :=
  match e with
  | ECase n => (Eol, KAssert) :: rev (map (fun c => (Chr c, KAtom)) n)
  | ESuite n => (Chr " ", KAtom) :: rev (map (fun c => (Chr c, KAtom)) n)
  end.

Definition expr_regex (e : NameExpr) : regex :=
  match e with
  | ECase n => seq_of (map Chr n ++ [Eol])
  | ESuite n => seq_of (map Chr (n ++ lit " ") ++ [])
  end.

(** The tokens of the alternatives [e :: es] joined by [|]. *)
Fixpoint alt_tokens (e : NameExpr) (es : list NameExpr) : list token :=
  match es with
  | [] => expr_tokens e
  | e' :: es' => expr_tokens e ++ TBar :: alt_tokens e' es'
  end.

Definition alts_regex (rs : list regex) : regex :=
  match rs with
  | [] => Eps
  | r :: rs' => alt_of r rs'
  end.

Definition fullNameOf (e : NameExpr) : str :=
  match e with ECase n | ESuite n => n end.

(** ** The run paths of a selection *)

(** The run paths of the files on the chain of parents starting at [p]. *)
Fixpoint filePathsFrom (h : Host) (p : TestItem) : list str :=
  match data p with
  | Some (TestFile wf f) => [runPathOf h wf f]
  | _ => []
  end ++
  match parent p with
  | None => []
  | Some p' => filePathsFrom h p'
  end.

(** The run paths one selected item contributes, in the order the loop
    meets them. *)
Definition itemPaths (h : Host) (t : TestItem) : list str :=
  match data t with
  | Some (TestFile wf f) => [runPathOf h wf f]
  | Some (TestSuite _) | Some (TestCase _) =>
      match parent t with
      | None => []
      | Some p => filePathsFrom h p
      end
  | None => []
  end.

Definition add_all (ps : list str) (s : list str) : list str :=
  fold_left (fun acc p => set_add p acc) ps s.

(** How often a flag occurs in an argument vector. *)
Definition count_flag (flag : str) (args : list str) : nat :=
  length (List.filter (str_eqb flag) args).

(** ** The debug flow *)

(** [.get("configurations", [])] *)
Definition configsOf (configurations : option (list DebugConfiguration))
  : list DebugConfiguration :=
  match configurations with Some cs => cs | None => [] end.

(** The sockets a step and a trace hand to [onConnection]. *)
Definition accepts (e : Event) (st : State) : list nat :=
  match e with
  | Connect socket => if listening st then [socket] else []
  | _ => []
  end.

Fixpoint accepted (tr : list Event) (st : State) : list nat :=
  match tr with
  | [] => []
  | e :: tr' => accepts e st ++ accepted tr' (fst (step e st))
  end.

(** Once the subprocess has exited, the session listener is disposed. *)
Definition disposed_after_exit (st : State) : Prop :=
  exited st = true -> listenerActive st = false.

(** ** The continuous run handler *)

(** What a change does to the pending set. *)
Definition apply_change (q : list str) (e : FileChangeEvent) : list str :=
  if removed e then delete (change_uri e) q else set_add (change_uri e) q.

(** The time [now] is before the running timer, if any, is due. *)
Definition not_due (d : option nat) (now : nat) : Prop :=
  match d with
  | Some due => now < due
  | None => True
  end.

(** The changes of a window, each let through by the guard and each before
    the timer of the one before it is due. *)
Fixpoint inWindow (req : TestRunRequest) (d : option nat)
  (evs : list (nat * FileChangeEvent)) : Prop :=
  match evs with
  | [] => True
  | (t, e) :: rest =>
      ignored req (change_uri e) = false /\ not_due d t /\
      inWindow req (Some (t + DEBOUNCE)) rest
  end.

Definition asInputs (evs : list (nat * FileChangeEvent)) : list (nat * Input) :=
  map (fun te => (fst te, FileChanged (snd te))) evs.

(** ** A workspace with three spec files *)

Module Fixture.

(** No karma configuration is found; [relative] is the path below the
    folder, as for a file inside it. *)
Definition host : Host :=
  mkHost (fun _ => []) (fun _ => Throw []) (fun from to => skipn (length from + 1) to).

Definition runner : AngularTestRunner := mkRunner "/w" Run None.

Definition fileA : TestItem :=
  mkTestItem (Some (lit "file:///w/src/a.spec.ts"))
             (Some (TestFile "/w" "/w/src/a.spec.ts")) None.
Definition fileB : TestItem :=
  mkTestItem (Some (lit "file:///w/src/b.spec.ts"))
             (Some (TestFile "/w" "/w/src/b.spec.ts")) None.
Definition fileC : TestItem :=
  mkTestItem (Some (lit "file:///w/src/c.spec.ts"))
             (Some (TestFile "/w" "/w/src/c.spec.ts")) None.

Definition suiteFoo : TestItem :=
  mkTestItem (uri fileA) (Some (TestSuite "Foo")) (Some fileA).
Definition suiteFooBar : TestItem :=
  mkTestItem (uri fileA) (Some (TestSuite "FooBar")) (Some fileA).

Definition case1 : TestItem :=
  mkTestItem (uri fileA) (Some (TestCase "Foo one")) (Some suiteFoo).
Definition case2 : TestItem :=
  mkTestItem (uri fileA) (Some (TestCase "Foo two")) (Some suiteFoo).
Definition case3 : TestItem :=
  mkTestItem (uri fileA) (Some (TestCase "FooBar three")) (Some suiteFooBar).
Definition caseMeta : TestItem :=
  mkTestItem (uri fileA) (Some (TestCase "A.B*C")) (Some fileA).

Definition fixed : list str :=
  [lit "npm"; lit "test"; lit "--"; lit "--no-watch"; lit "--browsers=ChromeHeadless"].

End Fixture.

Module MalformedConfig.

(** A workspace whose [karma.conf.js] reads [reporters: foo]. *)
Definition host : Host :=
  mkHost (fun glob => if str_eqb glob "karma.conf.js" then [lit "/w/karma.conf.js"] else [])
         (fun _ => Ok (lit "reporters: foo"))
         (fun from to => skipn (length from + 1) to).

End MalformedConfig.

(** ** Further vocabulary *)

(** A file item whose path is the workspace folder itself. *)
Definition folderItem : TestItem :=
  mkTestItem (Some (lit "file:///w")) (Some (TestFile "/w" "/w")) None.

(** An unsubscribed handler has no timer running. *)
Definition no_timer_when_unsubscribed (st : Sched) : Prop :=
  subscribed st = false -> debounced st = None.

(** What every rerun of the request [req] looks like. *)
Definition rerun_of (req r : TestRunRequest) : Prop :=
  continuous r = true /\
  exclude r = exclude req /\
  profile r = profile req /\
  exists inc, include r = Some inc /\
    forall orig, include req = Some orig -> exists keep, inc = List.filter keep orig.

(** The gate is ready only if a tracker exists, and a tracker exists only
    with a root session recorded. *)
Definition trackers_need_root (st : State) : Prop :=
  (ready st = true -> trackers st <> []) /\
  (trackers st <> [] -> rootSession st <> None).

(** Everything the exit handler disposes is disposed. *)
Definition all_disposed (st : State) : Prop :=
  exited st = true /\ listening st = false /\
  listenerActive st = false /\ factoryActive st = false.

(** It is so in every state after the exit. *)
Definition disposed_once_exited (st : State) : Prop :=
  exited st = true -> all_disposed st.

(** A token that is present only when it is not empty. *)
Definition optional (s : str) : list str :=
  match s with
  | [] => []
  | _ :: _ => [s]
  end.

(** [x => !!x] on a string. *)
Definition nonemptyb (s : str) : bool := negb (null s).

(** What the scan makes of one entry of the reporters list. *)
Definition cleanEntry (rep : str) : str :=
  trim (remove_first "'" (remove_first "'" rep)).

(** The runner a file name alone stands for. *)
Definition runnerByName (n : str) : option Extension.TestRunner :=
  if (includes n "package.json" || includes n "angular.json")
     && (includes n "karma" || includes n "jest" || includes n "angular")
  then Some (Extension.runnerOfName n)
  else None.

(** A script that decides: its key contains ["test"] and its command is
    recognised. *)
Definition decides (kv : str * str) : option Extension.TestRunner :=
  if includes (fst kv) "test" then Extension.classifyScript (snd kv) else None.

(** The text before the first [c]. *)
Fixpoint upto (c : ascii) (s : str) : str :=
  match s with
  | [] => []
  | x :: s' => if Ascii.eqb c x then [] else x :: upto c s'
  end.

(** The names still to be found in a queue. *)
Definition queueNames (queue : list (list Pending.TreeItem)) : list str :=
  flat_map (flat_map Pending.pendingNames) queue.

(** Every entry of the map is a test case under its full name. *)
Definition case_entries (m : list (str * Pending.TreeItem)) : Prop :=
  forall kv, In kv m -> Pending.item_data_of (snd kv) = Some (TestCase (fst kv)).

(* ===================================================================== *)
(** * Properties *)
(* ===================================================================== *)

(** ** Strings *)

Lemma str_eqb_eq (a b : str) : str_eqb a b = true <-> a = b.
Proof.
  unfold str_eqb. destruct (list_eq_dec ascii_dec a b); split; congruence.
Qed.

Lemma str_eqb_refl (a : str) : str_eqb a a = true.
Proof. now apply str_eqb_eq. Qed.

Lemma str_eqb_neq (a b : str) : str_eqb a b = false <-> a <> b.
Proof.
  unfold str_eqb. destruct (list_eq_dec ascii_dec a b); split; congruence.
Qed.

Lemma startsWith_app (p s : str) : startsWith p (p ++ s) = true.
Proof.
  induction p as [|c p IH]; simpl; [reflexivity|].
  now rewrite Ascii.eqb_refl.
Qed.

Lemma startsWith_split (p s : str) :
  startsWith p s = true -> s = p ++ skipn (length p) s.
Proof.
  revert s. induction p as [|c p IH]; intros [|x s]; simpl; try congruence.
  intros H. apply andb_true_iff in H as [Hc Hp].
  apply Ascii.eqb_eq in Hc. subst x. f_equal. now apply IH.
Qed.

Lemma startsWith_prefix (p q s : str) :
  startsWith (p ++ q) s = true -> startsWith p s = true.
Proof.
  revert s. induction p as [|c p IH]; intros s; simpl; [reflexivity|].
  destruct s as [|x s]; [congruence|].
  intros H. apply andb_true_iff in H as [Hc Hp].
  rewrite Hc. simpl. now apply IH.
Qed.

(** Two strings that start the same subject agree up to the shorter one. *)
Lemma startsWith_same_subject (p q s : str) :
  startsWith p s = true -> startsWith q s = true ->
  length p <= length q -> startsWith p q = true.
Proof.
  revert q s. induction p as [|c p IH]; intros q s; simpl; [reflexivity|].
  destruct s as [|x s]; [congruence|].
  destruct q as [|d q]; simpl; [lia|].
  intros Hp Hq Hl.
  apply andb_true_iff in Hp as [Hc Hp].
  apply andb_true_iff in Hq as [Hd Hq].
  apply Ascii.eqb_eq in Hc, Hd. subst. rewrite Ascii.eqb_refl. simpl.
  apply (IH q s); auto. lia.
Qed.

(** ** Escaping and the pattern reader *)

Lemma special_is_escapable (c : ascii) :
  is_special c = true -> identity_escape c = true.
Proof.
  unfold is_special, identity_escape, is_syntax, special_chars, syntax_chars.
  simpl. intros H.
  repeat (apply orb_true_iff in H as [H|H];
          [apply Ascii.eqb_eq in H; subst c; reflexivity|]).
  discriminate.
Qed.

Lemma plain_is_literal (c : ascii) :
  is_special c = false ->
  Ascii.eqb c "\" = false /\ single c = Some (TChar c).
Proof.
  unfold is_special, special_chars. simpl. intros H.
  repeat (apply orb_false_iff in H as [?H H]).
  unfold single, is_syntax, syntax_chars. simpl.
  repeat match goal with E : Ascii.eqb c _ = false |- _ => rewrite E; clear E end.
  split; reflexivity.
Qed.

(** The escaped name reads back as the name, character by character. *)
Lemma tokenize_escapeRe (n rest : str) (ts : list token) :
  tokenize rest = Some ts ->
  tokenize (escapeRe n ++ rest) = Some (map TChar n ++ ts).
Proof.
  intros Hrest. induction n as [|c n IH]; simpl; [assumption|].
  destruct (is_special c) eqn:Hs.
  - simpl. rewrite (special_is_escapable c Hs).
    fold (escapeRe n). rewrite IH. reflexivity.
  - destruct (plain_is_literal c Hs) as [Hb Hsingle].
    simpl. rewrite Hb, Hsingle. fold (escapeRe n). rewrite IH. reflexivity.
Qed.

Lemma parse_literals (w : str) (ts : list token) (f : frame) (st : list frame) :
  parse_loop (map TChar w ++ ts) f st =
  parse_loop ts (mkFrame (alts f) (rev (map (fun c => (Chr c, KAtom)) w) ++ cur f)) st.
Proof.
  revert f. induction w as [|c w IH]; intros f; simpl.
  - now destruct f.
  - rewrite IH. simpl. now rewrite <- app_assoc.
Qed.

(** ** Matching a run of literal characters *)

Lemma nonempty_app {A} (l1 l2 : list A) :
  nonempty (l1 ++ l2) = nonempty l1 || nonempty l2.
Proof. destruct l1; reflexivity. Qed.

Lemma matches_at_nonempty (r : regex) (b : bool) (s : str) :
  matches_at r b s = nonempty (ends r b s).
Proof. reflexivity. Qed.

Lemma ends_literals (w : str) (tl : list regex) (b : bool) (s : str) :
  ends (seq_of (map Chr w ++ tl)) b s =
  if startsWith w s
  then ends (seq_of tl) (b && null w) (skipn (length w) s)
  else [].
Proof.
  revert b s. induction w as [|c w IH]; intros b s.
  - simpl. now rewrite andb_true_r.
  - cbn [map app seq_of fold_right ends]. fold (seq_of (map Chr w ++ tl)).
    destruct s as [|x s]; [reflexivity|].
    cbn [startsWith]. rewrite (Ascii.eqb_sym c x).
    destruct (Ascii.eqb x c); cbn [flat_map andb]; [|reflexivity].
    cbn [fst snd]. rewrite app_nil_r, IH. cbn [andb length skipn null].
    rewrite andb_false_r. reflexivity.
Qed.

Lemma ends_alt_of (r : regex) (rs : list regex) (b : bool) (s : str) :
  nonempty (ends (alt_of r rs) b s) =
  existsb (fun r' => nonempty (ends r' b s)) (r :: rs).
Proof.
  revert r. induction rs as [|r' rs IH]; intros r.
  - simpl. now rewrite orb_false_r.
  - cbn [alt_of ends]. rewrite nonempty_app, IH. reflexivity.
Qed.

Lemma ends_then_eps (r : regex) (b : bool) (s : str) :
  nonempty (ends (Seq r Eps) b s) = nonempty (ends r b s).
Proof.
  cbn [ends]. destruct (ends r b s); reflexivity.
Qed.

(** An anchored pattern matches at index 0 or nowhere. *)
Lemma search_anchored (r : regex) (s : str) :
  search (Seq Bol r) false s = false.
Proof.
  induction s as [|c s IH]; simpl; [reflexivity|].
  unfold matches_at. simpl. assumption.
Qed.

Lemma test_anchored (r : regex) (s : str) :
  test (Seq Bol (Seq r Eps)) s = nonempty (ends r true s).
Proof.
  unfold test. destruct s as [|c s]; cbn [search].
  - rewrite orb_false_r, matches_at_nonempty.
    cbn [ends flat_map fst snd]. rewrite app_nil_r.
    apply (ends_then_eps r true []).
  - rewrite search_anchored, orb_false_r, matches_at_nonempty.
    cbn [ends flat_map fst snd]. rewrite app_nil_r.
    apply (ends_then_eps r true (c :: s)).
Qed.

(** ** The name-match expressions of a selection *)

Lemma visit_grep (h : Host) (sel : list TestItem) (acc : list str * list str) :
  fst (fold_left (visit h) sel acc) = fst acc ++ map expr_str (nameExprs sel).
Proof.
  revert acc. induction sel as [|t sel IH]; intros acc; simpl.
  - now rewrite app_nil_r.
  - rewrite IH. unfold visit, nameExpr.
    destruct (data t) as [[wf p|n|n]|]; simpl;
      rewrite <- ?app_assoc; reflexivity.
Qed.

Lemma resolve_grep (h : Host) (sel : list TestItem) :
  fst (resolveSelection h sel) = map expr_str (nameExprs sel).
Proof. unfold resolveSelection. now rewrite visit_grep. Qed.

Lemma tokenize_expr (e : NameExpr) (rest : str) (ts : list token) :
  tokenize rest = Some ts ->
  tokenize (expr_str e ++ rest) = Some (expr_tokens e ++ ts).
Proof.
  intros H. destruct e as [n|n]; unfold expr_str, expr_tokens;
    rewrite <- !app_assoc; apply tokenize_escapeRe; simpl; now rewrite H.
Qed.

Lemma tokenize_alts (e : NameExpr) (es : list NameExpr) (rest : str) (ts : list token) :
  tokenize rest = Some ts ->
  tokenize (join "|" (map expr_str (e :: es)) ++ rest) = Some (alt_tokens e es ++ ts).
Proof.
  intros H. revert e. induction es as [|e' es IH]; intros e.
  - simpl. now apply tokenize_expr.
  - change (join "|" (map expr_str (e :: e' :: es)))
      with (expr_str e ++ lit "|" ++ join "|" (map expr_str (e' :: es))).
    rewrite <- !app_assoc. cbn [alt_tokens]. rewrite <- app_assoc.
    apply tokenize_expr.
    change (lit "|" ++ join "|" (map expr_str (e' :: es)) ++ rest)
      with ("|"%char :: (join "|" (map expr_str (e' :: es)) ++ rest)).
    cbn [tokenize Ascii.eqb Bool.eqb single]. now rewrite IH.
Qed.

Lemma close_alt_expr (e : NameExpr) : close_alt (expr_cur e) = expr_regex e.
Proof.
  destruct e as [n|n]; unfold close_alt, expr_cur, expr_regex; cbn [map fst rev].
  - rewrite map_rev, rev_involutive, map_map. cbn [fst]. reflexivity.
  - rewrite map_rev, rev_involutive, map_map. cbn [fst].
    unfold lit. simpl. now rewrite map_app, app_nil_r.
Qed.

Lemma parse_expr (e : NameExpr) (ts : list token) (a : list regex) (st : list frame) :
  parse_loop (expr_tokens e ++ ts) (mkFrame a []) st =
  parse_loop ts (mkFrame a (expr_cur e)) st.
Proof.
  destruct e as [n|n]; unfold expr_tokens, expr_cur;
    rewrite <- app_assoc, parse_literals; simpl; now rewrite app_nil_r.
Qed.

Lemma parse_alts (e : NameExpr) (es : list NameExpr) (ts : list token)
  (a : list regex) (parent : frame) (st : list frame) :
  parse_loop (alt_tokens e es ++ TRParen :: ts) (mkFrame a []) (parent :: st) =
  parse_loop ts
    (push (Group (alts_regex (rev a ++ map expr_regex (e :: es))), KAtom) parent) st.
Proof.
  revert e a. induction es as [|e' es IH]; intros e a.
  - cbn [alt_tokens]. rewrite parse_expr. cbn [parse_loop].
    unfold close_frame. cbn [cur alts rev map].
    rewrite close_alt_expr. reflexivity.
  - cbn [alt_tokens]. rewrite <- app_assoc, parse_expr.
    cbn [app parse_loop cur alts]. rewrite IH, close_alt_expr.
    cbn [rev map]. now rewrite <- app_assoc.
Qed.

Lemma grepSource_token (l : list str) :
  grepSource (grepToken l) = lit "^(" ++ join "|" l ++ lit ")".
Proof.
  unfold grepToken, grepSource. cbn [lit list_ascii_of_string app].
  set (J := join _ l).
  assert (E : "^"%char :: "("%char :: J ++ [")"%char; "/"%char] =
              ("^"%char :: "("%char :: J ++ [")"%char]) ++ ["/"%char])
    by (simpl; now rewrite <- app_assoc).
  rewrite E. remember ("^"%char :: "("%char :: J ++ [")"%char]) as X.
  rewrite rev_app_distr. cbn [rev app]. apply rev_involutive.
Qed.

(** The pattern of a non-empty selection compiles to the anchored
    alternation of its literal expressions. *)
Lemma compile_grep (e : NameExpr) (es : list NameExpr) :
  compile (grepSource (grepToken (map expr_str (e :: es)))) =
  Some (Seq Bol (Seq (Group (alts_regex (map expr_regex (e :: es)))) Eps)).
Proof.
  rewrite grepSource_token. unfold compile.
  change (lit "^(" ++ join "|" (map expr_str (e :: es)) ++ lit ")")
    with ("^"%char :: "("%char :: (join "|" (map expr_str (e :: es)) ++ lit ")")).
  cbn [tokenize Ascii.eqb Bool.eqb single].
  rewrite (@tokenize_alts e es (lit ")") [TRParen] eq_refl).
  cbn [option_map parse_loop push empty_frame alts cur].
  apply (parse_alts e es [] [] (push (Bol, KAssert) empty_frame) []).
Qed.

Lemma case_exact (n s : str) :
  startsWith n s && null (skipn (length n) s) = str_eqb s n.
Proof.
  destruct (startsWith n s) eqn:Hp; simpl.
  - pose proof (startsWith_split n s Hp) as Hs.
    destruct (skipn (length n) s) eqn:Hk; simpl.
    + rewrite app_nil_r in Hs. subst s. symmetry. apply str_eqb_refl.
    + symmetry. apply str_eqb_neq. intros ->.
      rewrite skipn_all in Hk. discriminate.
  - symmetry. apply str_eqb_neq. intros ->.
    rewrite <- (app_nil_r n) in Hp at 2. now rewrite startsWith_app in Hp.
Qed.

Lemma expr_regex_selects (e : NameExpr) (b : bool) (s : str) :
  nonempty (ends (expr_regex e) b s) = selects e s.
Proof.
  destruct e as [n|n]; unfold expr_regex, selects; rewrite ends_literals.
  - rewrite <- case_exact. destruct (startsWith n s); [|reflexivity].
    cbn [seq_of fold_right ends andb].
    destruct (skipn (length n) s); reflexivity.
  - destruct (startsWith (n ++ lit " ") s); reflexivity.
Qed.

(** [--grep] for a non-empty list of expressions selects exactly the names
    one of the expressions selects when read literally. *)
Lemma grepSelects_literal (e : NameExpr) (es : list NameExpr) (name : str) :
  grepSelects (grepToken (map expr_str (e :: es))) name =
  Some (existsb (fun x => selects x name) (e :: es)).
Proof.
  unfold grepSelects. rewrite compile_grep. cbn [option_map].
  rewrite test_anchored. cbn [ends alts_regex map].
  rewrite ends_alt_of. f_equal.
  change (expr_regex e :: map expr_regex es) with (map expr_regex (e :: es)).
  induction (e :: es) as [|x l IH]; cbn [map existsb]; [reflexivity|].
  now rewrite expr_regex_selects, IH.
Qed.

(** ** The run paths of a selection *)

Lemma set_add_In (p q : str) (s : list str) :
  In q (set_add p s) <-> q = p \/ In q s.
Proof.
  unfold set_add. destruct (existsb (str_eqb p) s) eqn:E.
  - split; [now right|]. intros [->|H]; [|assumption].
    apply existsb_exists in E as (x & Hx & Hpx).
    apply str_eqb_eq in Hpx. now subst.
  - rewrite in_app_iff. simpl. intuition (subst; auto).
Qed.

Lemma set_add_NoDup (p : str) (s : list str) : NoDup s -> NoDup (set_add p s).
Proof.
  intros Hs. unfold set_add. destruct (existsb (str_eqb p) s) eqn:E; [assumption|].
  apply NoDup_app.
  - assumption.
  - repeat constructor. intros [].
  - intros a Ha [Hpa|[]]. subst a.
    assert (existsb (str_eqb p) s = true) as Habs; [|congruence].
    apply existsb_exists. exists p. split; [assumption|apply str_eqb_refl].
Qed.

Lemma add_all_In (ps s : list str) (q : str) :
  In q (add_all ps s) <-> In q ps \/ In q s.
Proof.
  revert s. induction ps as [|p ps IH]; intros s; simpl.
  - intuition.
  - unfold add_all in *. simpl. rewrite IH, set_add_In. intuition.
Qed.

Lemma add_all_NoDup (ps s : list str) : NoDup s -> NoDup (add_all ps s).
Proof.
  revert s. induction ps as [|p ps IH]; intros s Hs; simpl; [assumption|].
  apply IH. now apply set_add_NoDup.
Qed.

Lemma walkParents_add_all (h : Host) :
  forall (p : TestItem) (s : list str),
    walkParents h p s = add_all (filePathsFrom h p) s.
Proof.
  fix IH 1. intros [u d par] s. cbn [walkParents filePathsFrom data parent].
  unfold add_all. rewrite fold_left_app. fold (add_all).
  assert (addTestFileRunPath h d s =
          fold_left (fun acc p => set_add p acc)
            match d with Some (TestFile wf f) => [runPathOf h wf f] | _ => [] end s)
    as -> by (destruct d as [[wf f|n|n]|]; reflexivity).
  destruct par as [p'|]; [apply IH|reflexivity].
Qed.

Lemma visit_paths (h : Host) (t : TestItem) (acc : list str * list str) :
  snd (visit h acc t) = add_all (itemPaths h t) (snd acc).
Proof.
  unfold visit, itemPaths, walkFrom.
  destruct (data t) as [[wf f|n|n]|]; cbn [snd]; try reflexivity;
    destruct (parent t); try reflexivity; apply walkParents_add_all.
Qed.

Lemma fold_visit_paths (h : Host) (sel : list TestItem) (acc : list str * list str) :
  snd (fold_left (visit h) sel acc) = add_all (flat_map (itemPaths h) sel) (snd acc).
Proof.
  revert acc. induction sel as [|t sel IH]; intros acc; simpl; [reflexivity|].
  rewrite IH, visit_paths. unfold add_all. now rewrite fold_left_app.
Qed.

Lemma resolve_paths (h : Host) (sel : list TestItem) :
  snd (resolveSelection h sel) = add_all (flat_map (itemPaths h) sel) [].
Proof. unfold resolveSelection. now rewrite fold_visit_paths. Qed.

Lemma resolve_NoDup (h : Host) (sel : list TestItem) :
  NoDup (snd (resolveSelection h sel)).
Proof. rewrite resolve_paths. apply add_all_NoDup. constructor. Qed.

Lemma resolve_In (h : Host) (sel : list TestItem) (p : str) :
  In p (snd (resolveSelection h sel)) <-> exists t, In t sel /\ In p (itemPaths h t).
Proof.
  rewrite resolve_paths, add_all_In, in_flat_map. simpl. intuition.
Qed.

Lemma NoDup_constant (l : list str) (p : str) :
  NoDup l -> (forall q, In q l -> q = p) -> In p l -> l = [p].
Proof.
  intros Hnd Hall Hin. destruct l as [|a l]; [destruct Hin|].
  assert (a = p) as -> by (apply Hall; now left).
  f_equal. destruct l as [|b l]; [reflexivity|].
  assert (b = p) as -> by (apply Hall; right; now left).
  inversion Hnd as [|? ? Hn _]. exfalso. apply Hn. now left.
Qed.

(** ** The shape of the argument vector *)

Lemma prepareArgs_shape (h : Host) (r : AngularTestRunner) (baseArgs : list str)
  (sel : list TestItem) (args : list str) :
  prepareArgs h r baseArgs (Some sel) = Ok args ->
  exists reporters,
    getReporters h = Ok reporters /\
    args = fixedArgs r baseArgs (getConfigName h) reporters ++
           grepArgs (fst (resolveSelection h sel)) ++
           runArgs (snd (resolveSelection h sel)).
Proof.
  unfold prepareArgs. destruct (getReporters h) as [reporters|e]; simpl; [|discriminate].
  destruct (resolveSelection h sel) as [grepRe runPaths]. intros [= <-].
  exists reporters. split; reflexivity.
Qed.

Lemma keep_truthy_nonempty (xs : list (option str)) :
  Forall (fun a => a <> []) (keep_truthy xs).
Proof.
  unfold keep_truthy. induction xs as [|x xs IH]; simpl; [constructor|].
  destruct x as [[|c s]|]; simpl; auto.
  constructor; [discriminate|assumption].
Qed.

Lemma fixedArgs_nonempty (r : AngularTestRunner) (baseArgs : list str) (c rep : str) :
  Forall (fun a => a <> []) (fixedArgs r baseArgs c rep).
Proof. apply keep_truthy_nonempty. Qed.

Lemma runArgs_nonempty (ps : list str) :
  Forall (fun p => p <> []) ps -> Forall (fun a => a <> []) (runArgs ps).
Proof.
  induction 1 as [|p ps Hp _ IH]; simpl; [constructor|].
  constructor; [discriminate|]. constructor; assumption.
Qed.

Lemma runArgs_length (ps : list str) : length (runArgs ps) = 2 * length ps.
Proof.
  induction ps as [|p ps IH]; [reflexivity|].
  cbn [runArgs flat_map app length] in *. fold (runArgs ps). lia.
Qed.

Lemma grepArgs_nonempty (g : list str) : Forall (fun a => a <> []) (grepArgs g).
Proof.
  destruct g; simpl; [constructor|].
  constructor; [discriminate|]. constructor; [discriminate|constructor].
Qed.

Lemma nameExprs_In (sel : list TestItem) (item : TestItem) (e : NameExpr) :
  In item sel -> nameExpr item = [e] -> In e (nameExprs sel).
Proof.
  intros Hin He. unfold nameExprs. apply in_flat_map.
  exists item. split; [assumption|]. rewrite He. now left.
Qed.

Lemma grepArgs_selection (h : Host) (sel : list TestItem) :
  nameExprs sel <> [] ->
  grepArgs (fst (resolveSelection h sel)) =
  [lit "--grep"; grepToken (fst (resolveSelection h sel))].
Proof.
  rewrite resolve_grep. destruct (nameExprs sel); [congruence|reflexivity].
Qed.

Lemma grepSelects_selection (h : Host) (sel : list TestItem) (name : str) :
  nameExprs sel <> [] ->
  grepSelects (grepToken (fst (resolveSelection h sel))) name =
  Some (existsb (fun x => selects x name) (nameExprs sel)).
Proof.
  rewrite resolve_grep. destruct (nameExprs sel) as [|e es]; [congruence|].
  intros _. apply grepSelects_literal.
Qed.

Lemma escapeRe_plain (n : str) :
  forallb (fun c => negb (is_special c)) n = true -> escapeRe n = n.
Proof.
  induction n as [|c n IH]; simpl; [reflexivity|].
  intros H. apply andb_true_iff in H as [Hc Hn].
  destruct (is_special c); [discriminate|]. simpl. f_equal. now apply IH.
Qed.

(** A name under a sibling suite whose name extends the suite's is not a
    name under the suite. *)
Lemma FooBar_not_under_Foo (name : str) :
  startsWith "FooBar " name = true -> selects (ESuite "Foo") name = false.
Proof.
  intros H. rewrite (startsWith_split _ _ H). reflexivity.
Qed.

(** ** C1: prefix non-interference *)

(** C1, as stated, fails: with the suite "Foo" and a case of its sibling
    "FooBar" selected, the alternation has an alternative for that case and
    selects it, a name beginning with "FooBar ". *)
Lemma FooBar_case_selected_is_matched :
  prepareArgs Fixture.host Fixture.runner []
    (Some [Fixture.suiteFoo; Fixture.case3]) =
  Ok (Fixture.fixed ++
      [lit "--grep"; lit "/^(Foo |FooBar three$)/"; lit "--run"; lit "src/a.spec.ts"]) /\
  In Fixture.suiteFoo [Fixture.suiteFoo; Fixture.case3] /\
  data Fixture.suiteFoo = Some (TestSuite "Foo") /\
  startsWith "FooBar " "FooBar three" = true /\
  grepSelects "/^(Foo |FooBar three$)/" "FooBar three" = Some true.
Proof.
  repeat match goal with |- _ /\ _ => split end; try reflexivity. now left.
Qed.

(** The same with the sibling suite itself selected. *)
Example FooBar_suite_selected_is_matched :
  prepareArgs Fixture.host Fixture.runner []
    (Some [Fixture.suiteFoo; Fixture.suiteFooBar]) =
  Ok (Fixture.fixed ++
      [lit "--grep"; lit "/^(Foo |FooBar )/"; lit "--run"; lit "src/a.spec.ts"]) /\
  grepSelects "/^(Foo |FooBar )/" "FooBar three" = Some true.
Proof. split; reflexivity. Qed.

(** With the suite "Foo" alone selected, nothing under "FooBar" is. *)
Example Foo_alone_selects_nothing_under_FooBar :
  prepareArgs Fixture.host Fixture.runner [] (Some [Fixture.suiteFoo]) =
  Ok (Fixture.fixed ++
      [lit "--grep"; lit "/^(Foo )/"; lit "--run"; lit "src/a.spec.ts"]) /\
  grepSelects "/^(Foo )/" "Foo one" = Some true /\
  grepSelects "/^(Foo )/" "FooBar three" = Some false.
Proof. repeat split; reflexivity. Qed.

(** C1 (amended): for every selection that contains the suite "Foo", the
    [--grep] alternation built by [prepareArgs] selects every test name
    beginning with "Foo "; the alternative of "Foo" selects no name beginning
    with "FooBar ", so the alternation selects such a name only when another
    selected item's own expression selects it, and selects none when no
    other selected item does. *)
Theorem suite_prefix_non_interference
  (h : Host) (r : AngularTestRunner) (baseArgs : list str)
  (sel : list TestItem) (args : list str) (item : TestItem) :
  prepareArgs h r baseArgs (Some sel) = Ok args ->
  In item sel ->
  data item = Some (TestSuite "Foo") ->
  exists fixed token,
    args = fixed ++ [lit "--grep"; token] ++ runArgs (snd (resolveSelection h sel)) /\
    token = grepToken (fst (resolveSelection h sel)) /\
    In (lit "Foo ") (fst (resolveSelection h sel)) /\
    (forall name, startsWith "Foo " name = true ->
                  grepSelects token name = Some true) /\
    (forall name, startsWith "FooBar " name = true ->
                  selects (ESuite "Foo") name = false) /\
    (forall name, startsWith "FooBar " name = true ->
                  grepSelects token name = Some true ->
                  exists e, In e (nameExprs sel) /\ e <> ESuite "Foo" /\
                            selects e name = true) /\
    (forall name, startsWith "FooBar " name = true ->
                  (forall e, In e (nameExprs sel) -> e <> ESuite "Foo" ->
                             selects e name = false) ->
                  grepSelects token name = Some false).
Proof.
  intros Hargs Hin Hdata.
  assert (nameExpr item = [ESuite "Foo"]) as He by (unfold nameExpr; now rewrite Hdata).
  pose proof (nameExprs_In sel item _ Hin He) as HinE.
  assert (nameExprs sel <> []) as Hne by (intros E; rewrite E in HinE; destruct HinE).
  destruct (prepareArgs_shape _ _ _ _ _ Hargs) as (rep & _ & ->).
  rewrite (grepArgs_selection h sel Hne).
  eexists. eexists. split; [reflexivity|]. split; [reflexivity|].
  split; [|split; [|split; [|split]]].
  - rewrite resolve_grep. apply (in_map expr_str) in HinE. exact HinE.
  - intros name Hname. rewrite (grepSelects_selection h sel name Hne). f_equal.
    apply existsb_exists. exists (ESuite "Foo"). split; [assumption|exact Hname].
  - apply FooBar_not_under_Foo.
  - intros name Hname. rewrite (grepSelects_selection h sel name Hne).
    intros [= Hex]. apply existsb_exists in Hex as (e & HeIn & Hsel).
    exists e. repeat split; try assumption.
    intros ->. rewrite (FooBar_not_under_Foo name Hname) in Hsel. discriminate.
  - intros name Hname Hothers. rewrite (grepSelects_selection h sel name Hne). f_equal.
    destruct (existsb (fun x => selects x name) (nameExprs sel)) eqn:Hex; [|reflexivity].
    apply existsb_exists in Hex as (e & HeIn & Hsel).
    destruct e as [n|n].
    + rewrite (Hothers (ECase n) HeIn) in Hsel; [discriminate|discriminate].
    + destruct (list_eq_dec ascii_dec n (lit "Foo")) as [->|Hn].
      * rewrite (FooBar_not_under_Foo name Hname) in Hsel. discriminate.
      * rewrite (Hothers (ESuite n) HeIn) in Hsel; [discriminate|congruence].
Qed.

Lemma suite_prefix_non_interference_witness :
  In Fixture.suiteFoo [Fixture.suiteFoo; Fixture.case1] /\
  exists fixed token,
    Fixture.fixed ++ [lit "--grep"; lit "/^(Foo |Foo one$)/";
                      lit "--run"; lit "src/a.spec.ts"] =
    fixed ++ [lit "--grep"; token] ++
      runArgs (snd (resolveSelection Fixture.host [Fixture.suiteFoo; Fixture.case1])) /\
    token = grepToken (fst (resolveSelection Fixture.host [Fixture.suiteFoo; Fixture.case1])) /\
    In (lit "Foo ") (fst (resolveSelection Fixture.host [Fixture.suiteFoo; Fixture.case1])) /\
    (forall name, startsWith "Foo " name = true ->
                  grepSelects token name = Some true) /\
    (forall name, startsWith "FooBar " name = true ->
                  selects (ESuite "Foo") name = false) /\
    (forall name, startsWith "FooBar " name = true ->
                  grepSelects token name = Some true ->
                  exists e, In e (nameExprs [Fixture.suiteFoo; Fixture.case1]) /\
                            e <> ESuite "Foo" /\ selects e name = true) /\
    (forall name, startsWith "FooBar " name = true ->
                  (forall e, In e (nameExprs [Fixture.suiteFoo; Fixture.case1]) ->
                             e <> ESuite "Foo" -> selects e name = false) ->
                  grepSelects token name = Some false).
Proof.
  split; [now left|].
  apply (@suite_prefix_non_interference Fixture.host Fixture.runner []
           [Fixture.suiteFoo; Fixture.case1] _ Fixture.suiteFoo).
  - reflexivity.
  - now left.
  - reflexivity.
Defined.

(** ** C7: escaping *)

(** The unescaped name ["A.B*C"], read as a pattern, selects ["AxBBC"];
    the pattern [prepareArgs] builds selects the literal name only. *)
Example metacharacters_unescaped :
  grepSelects "/^(A.B*C$)/" "AxBBC" = Some true /\
  grepSelects "/^(A.B*C$)/" "A.B*C" = Some false.
Proof. split; reflexivity. Qed.

Example metacharacters_escaped :
  prepareArgs Fixture.host Fixture.runner [] (Some [Fixture.caseMeta]) =
  Ok (Fixture.fixed ++
      [lit "--grep"; lit "/^(A\.B\*C$)/"; lit "--run"; lit "src/a.spec.ts"]) /\
  grepSelects "/^(A\.B\*C$)/" "A.B*C" = Some true /\
  grepSelects "/^(A\.B\*C$)/" "AxBBC" = Some false.
Proof. repeat split; reflexivity. Qed.

(** C7: for every selected case or suite, whatever characters its full name
    holds, the expression [prepareArgs] pushes is the escaped name with [$]
    (case) or a space (suite) appended; the pattern reader reads the escaped
    name back as the plain characters of the name, and the [--grep]
    alternation selects the names the item selects literally (a case its
    exact name, a suite the names starting with its name and a space) and no
    name that no selected item selects literally. *)
Theorem escaped_name_matches_literally
  (h : Host) (r : AngularTestRunner) (baseArgs : list str)
  (sel : list TestItem) (args : list str) (item : TestItem) (e : NameExpr) :
  prepareArgs h r baseArgs (Some sel) = Ok args ->
  In item sel ->
  nameExpr item = [e] ->
  exists fixed token,
    args = fixed ++ [lit "--grep"; token] ++ runArgs (snd (resolveSelection h sel)) /\
    token = grepToken (fst (resolveSelection h sel)) /\
    In (escapeRe (fullNameOf e) ++ match e with ECase _ => lit "$" | ESuite _ => lit " " end)
       (fst (resolveSelection h sel)) /\
    tokenize (escapeRe (fullNameOf e)) = Some (map TChar (fullNameOf e)) /\
    (forall name, selects e name = true -> grepSelects token name = Some true) /\
    (forall name, grepSelects token name = Some true ->
                  exists x, In x (nameExprs sel) /\ selects x name = true) /\
    (forall name, grepSelects token name =
                  Some (existsb (fun x => selects x name) (nameExprs sel))).
Proof.
  intros Hargs Hin He.
  pose proof (nameExprs_In sel item _ Hin He) as HinE.
  assert (nameExprs sel <> []) as Hne by (intros E; rewrite E in HinE; destruct HinE).
  destruct (prepareArgs_shape _ _ _ _ _ Hargs) as (rep & _ & ->).
  rewrite (grepArgs_selection h sel Hne).
  eexists. eexists. split; [reflexivity|]. split; [reflexivity|].
  split; [|split; [|split; [|split]]].
  - rewrite resolve_grep. apply (in_map expr_str) in HinE.
    destruct e; exact HinE.
  - rewrite <- (app_nil_r (escapeRe (fullNameOf e))).
    rewrite (@tokenize_escapeRe (fullNameOf e) [] [] eq_refl).
    now rewrite app_nil_r.
  - intros name Hname. rewrite (grepSelects_selection h sel name Hne). f_equal.
    apply existsb_exists. exists e. split; assumption.
  - intros name. rewrite (grepSelects_selection h sel name Hne).
    intros [= Hex]. apply existsb_exists in Hex. exact Hex.
  - intros name. apply (grepSelects_selection h sel name Hne).
Qed.

Lemma escaped_name_matches_literally_witness :
  grepSelects (grepToken (fst (resolveSelection Fixture.host [Fixture.caseMeta])))
              "A.B*C" = Some true /\
  grepSelects (grepToken (fst (resolveSelection Fixture.host [Fixture.caseMeta])))
              "AxBBC" = Some false.
Proof.
  destruct (@escaped_name_matches_literally Fixture.host Fixture.runner []
              [Fixture.caseMeta] _ Fixture.caseMeta (ECase "A.B*C")
              eq_refl (or_introl eq_refl) eq_refl)
    as (fixed & token & _ & Htoken & _ & _ & Hyes & _ & Hall).
  subst token. split.
  - apply Hyes. reflexivity.
  - rewrite Hall. reflexivity.
Defined.

(** ** Counting a filter flag in the argument vector *)

Lemma count_flag_app (f : str) (a b : list str) :
  count_flag f (a ++ b) = count_flag f a + count_flag f b.
Proof. unfold count_flag. now rewrite filter_app, length_app. Qed.

Lemma count_flag_cons (f x : str) (l : list str) :
  count_flag f (x :: l) = (if str_eqb f x then 1 else 0) + count_flag f l.
Proof. unfold count_flag. cbn [List.filter]. now destruct (str_eqb f x). Qed.

Lemma keep_truthy_concat (xs ys : list (option str)) :
  keep_truthy (xs ++ ys) = keep_truthy xs ++ keep_truthy ys.
Proof. unfold keep_truthy. apply flat_map_app. Qed.

Lemma keep_truthy_cons (x : str) (xs : list (option str)) :
  keep_truthy (Some x :: xs) =
  match x with [] => keep_truthy xs | _ :: _ => x :: keep_truthy xs end.
Proof. unfold keep_truthy. cbn [flat_map truthy]. now destruct x. Qed.

Lemma count_flag_truthy (f : str) (l : list str) :
  f <> [] -> count_flag f (keep_truthy (map Some l)) = count_flag f l.
Proof.
  intros Hf. induction l as [|x l IH]; [reflexivity|].
  cbn [map]. rewrite keep_truthy_cons, (count_flag_cons f x l).
  destruct x as [|c x].
  - rewrite IH. apply str_eqb_neq in Hf. now rewrite Hf.
  - now rewrite count_flag_cons, IH.
Qed.

Lemma getConfigName_form (h : Host) :
  getConfigName h = [] \/ exists n, getConfigName h = lit "--karma-config=" ++ n.
Proof.
  unfold getConfigName. destruct (karmaConfFiles h); [now left|right; eexists; reflexivity].
Qed.

Lemma getReporters_form (h : Host) (rep : str) :
  getReporters h = Ok rep -> rep = [] \/ exists l, rep = lit "--reporters=" ++ l.
Proof.
  unfold getReporters. destruct (karmaConfFiles h) as [|file0 files];
    [intros [= <-]; now left|].
  destruct (readFile h file0) as [[|c content]|]; try (intros [= <-]; now left).
  unfold scanReporters. destruct (includes _ _); [|intros [= <-]; now left].
  destruct (nth_error _ 1); [|discriminate].
  intros [= <-]. right. eexists. reflexivity.
Qed.

(** The fixed arguments hold a filter flag as often as the base arguments
    do: none of the arguments the runner adds itself is one. *)
Lemma count_flag_fixedArgs (f : str) (r : AngularTestRunner) (baseArgs : list str)
  (c rep : str) :
  f = lit "--run" \/ f = lit "--grep" ->
  c = [] \/ (exists n, c = lit "--karma-config=" ++ n) ->
  rep = [] \/ (exists l, rep = lit "--reporters=" ++ l) ->
  count_flag f (fixedArgs r baseArgs c rep) = count_flag f baseArgs.
Proof.
  intros Hf Hc Hr.
  assert (f <> []) as Hne by (destruct Hf as [-> | ->]; discriminate).
  assert (str_eqb f c = false) as Ec.
  { apply str_eqb_neq. intros E.
    destruct Hc as [-> | (n & ->)]; [contradiction|].
    destruct Hf as [-> | ->]; discriminate E. }
  assert (str_eqb f rep = false) as Er.
  { apply str_eqb_neq. intros E.
    destruct Hr as [-> | (l & ->)]; [contradiction|].
    destruct Hf as [-> | ->]; discriminate E. }
  unfold fixedArgs.
  rewrite !keep_truthy_concat, !count_flag_app, (count_flag_truthy f baseArgs Hne).
  rewrite !keep_truthy_cons.
  assert (forall rest, count_flag f (match c with [] => rest | _ :: _ => c :: rest end) =
                       count_flag f rest) as Dc.
  { intros rest. destruct c; [reflexivity|]. now rewrite count_flag_cons, Ec. }
  assert (forall rest, count_flag f (match rep with [] => rest | _ :: _ => rep :: rest end) =
                       count_flag f rest) as Dr.
  { intros rest. destruct rep; [reflexivity|]. now rewrite count_flag_cons, Er. }
  rewrite Dc, Dr.
  destruct Hf as [-> | ->];
    destruct (continuousMode r) as [[|]|]; destruct (runProfileKind r);
    cbn; lia.
Qed.

Lemma count_flag_runArgs (f : str) (ps : list str) :
  count_flag f (runArgs ps) =
  (if str_eqb f (lit "--run") then length ps else 0) + count_flag f ps.
Proof.
  induction ps as [|p ps IH]; [now destruct (str_eqb f (lit "--run"))|].
  change (runArgs (p :: ps)) with (lit "--run" :: p :: runArgs ps).
  rewrite !count_flag_cons, IH. cbn [length].
  destruct (str_eqb f (lit "--run")), (str_eqb f p); lia.
Qed.

Lemma count_flag_grepArgs (f : str) (grepRe : list str) :
  f = lit "--run" \/ f = lit "--grep" ->
  count_flag f (grepArgs grepRe) =
  match grepArgs grepRe with
  | [] => 0
  | _ :: _ => if str_eqb f (lit "--grep") then 1 else 0
  end.
Proof.
  intros Hf. destruct grepRe as [|e es]; [reflexivity|].
  cbn [grepArgs]. rewrite !count_flag_cons.
  assert (str_eqb f (grepToken (e :: es)) = false) as ->.
  { apply str_eqb_neq. unfold grepToken. intros E.
    destruct Hf as [-> | ->]; discriminate E. }
  change (count_flag f []) with 0.
  destruct (str_eqb f (lit "--grep")); lia.
Qed.

Lemma prepareArgs_unfiltered (h : Host) (r : AngularTestRunner) (baseArgs : list str)
  (rep : str) :
  getReporters h = Ok rep ->
  prepareArgs h r baseArgs None = Ok (fixedArgs r baseArgs (getConfigName h) rep).
Proof. intros E. unfold prepareArgs. now rewrite E. Qed.

Lemma grepToken_nonempty (grepRe : list str) : grepToken grepRe <> [].
Proof. unfold grepToken. discriminate. Qed.

(** ** C2: the argument vector *)

(** A selection of two files gives [--run] twice; and a file item whose
    path is the workspace folder itself, for which [path.relative] is the
    empty string, gives an empty element after [--run]: the run paths are
    pushed after [args.filter(x => !!x)] has run. *)
Lemma run_flag_twice_and_empty_path :
  (prepareArgs Fixture.host Fixture.runner [] (Some [Fixture.fileA; Fixture.fileB]) =
   Ok (Fixture.fixed ++
       [lit "--run"; lit "src/a.spec.ts"; lit "--run"; lit "src/b.spec.ts"]) /\
   count_flag "--run"
     (Fixture.fixed ++
      [lit "--run"; lit "src/a.spec.ts"; lit "--run"; lit "src/b.spec.ts"]) = 2) /\
  (prepareArgs Fixture.host Fixture.runner [] (Some [folderItem]) =
   Ok (Fixture.fixed ++ [lit "--run"; lit ""]) /\
   In (lit "") (Fixture.fixed ++ [lit "--run"; lit ""])).
Proof.
  split; split; try reflexivity.
  apply in_or_app. right. right. now left.
Qed.

(** C2 (amended): every argument vector [prepareArgs] produces is the fixed
    arguments -- the vector [prepareArgs] produces without a selection, none
    of its elements empty -- followed by what the selection adds: [--grep]
    with one non-empty value, the alternation of the selection, at most once,
    and then one pair [--run <path>] for each run path of the selection, no
    path twice.  So beyond the base arguments [--grep] occurs once or not at
    all and [--run] once per distinct run path, twice and more for a
    selection that spans several files (a run path that itself reads
    [--grep] or [--run] is counted as well).  No element is empty as long
    as no run path is. *)
Theorem argument_vector_invariant
  (h : Host) (r : AngularTestRunner) (baseArgs : list str)
  (filter : option (list TestItem)) (args : list str) :
  prepareArgs h r baseArgs filter = Ok args ->
  exists fixed grep runPaths,
    prepareArgs h r baseArgs None = Ok fixed /\
    args = fixed ++ grep ++ flat_map (fun p => [lit "--run"; p]) runPaths /\
    Forall (fun a => a <> []) (fixed ++ grep) /\
    (grep = [] \/ exists token, token <> [] /\ grep = [lit "--grep"; token]) /\
    NoDup runPaths /\
    length (runArgs runPaths) = 2 * length runPaths /\
    (filter = None -> grep = [] /\ runPaths = []) /\
    (forall sel, filter = Some sel ->
       grep = grepArgs (fst (resolveSelection h sel)) /\
       runPaths = snd (resolveSelection h sel) /\
       forall p, In p runPaths <-> exists t, In t sel /\ In p (itemPaths h t)) /\
    count_flag "--grep" args =
      count_flag "--grep" baseArgs +
      match grep with [] => 0 | _ :: _ => 1 end +
      count_flag "--grep" runPaths /\
    count_flag "--run" args =
      count_flag "--run" baseArgs + length runPaths + count_flag "--run" runPaths /\
    (Forall (fun p => p <> []) runPaths -> Forall (fun a => a <> []) args).
Proof.
  intros Hargs.
  assert (exists rep, getReporters h = Ok rep /\
            args = fixedArgs r baseArgs (getConfigName h) rep ++
                   match filter with
                   | Some sel => grepArgs (fst (resolveSelection h sel)) ++
                                 runArgs (snd (resolveSelection h sel))
                   | None => []
                   end) as (rep & Hrep & ->).
  { destruct filter as [sel|].
    - exact (prepareArgs_shape _ _ _ _ _ Hargs).
    - unfold prepareArgs in Hargs.
      destruct (getReporters h) as [rep|e]; simpl in Hargs; [|discriminate].
      injection Hargs as <-. exists rep. split; [reflexivity|].
      now rewrite app_nil_r. }
  pose proof (getConfigName_form h) as Hc.
  pose proof (getReporters_form h rep Hrep) as Hr.
  exists (fixedArgs r baseArgs (getConfigName h) rep),
         (match filter with
          | Some sel => grepArgs (fst (resolveSelection h sel))
          | None => []
          end),
         (match filter with
          | Some sel => snd (resolveSelection h sel)
          | None => []
          end).
  fold runArgs.
  split; [now apply prepareArgs_unfiltered|].
  split; [destruct filter; reflexivity|].
  split; [apply Forall_app; split;
          [apply fixedArgs_nonempty|destruct filter; [apply grepArgs_nonempty|constructor]]|].
  split.
  { destruct filter as [sel|]; [|now left].
    destruct (fst (resolveSelection h sel)) as [|e es]; [now left|].
    right. eexists. split; [apply (grepToken_nonempty (e :: es))|reflexivity]. }
  split; [destruct filter; [apply resolve_NoDup|constructor]|].
  split; [apply runArgs_length|].
  split; [intros ->; now split|].
  split.
  { intros sel ->. split; [reflexivity|]. split; [reflexivity|].
    intros p. apply resolve_In. }
  assert (forall f, f = lit "--run" \/ f = lit "--grep" ->
            count_flag f
              (fixedArgs r baseArgs (getConfigName h) rep ++
               match filter with
               | Some sel => grepArgs (fst (resolveSelection h sel)) ++
                             runArgs (snd (resolveSelection h sel))
               | None => []
               end) =
            count_flag f baseArgs +
            match match filter with
                  | Some sel => grepArgs (fst (resolveSelection h sel))
                  | None => []
                  end with
            | [] => 0
            | _ :: _ => if str_eqb f (lit "--grep") then 1 else 0
            end +
            ((if str_eqb f (lit "--run")
              then length match filter with
                          | Some sel => snd (resolveSelection h sel)
                          | None => []
                          end
              else 0) +
             count_flag f match filter with
                          | Some sel => snd (resolveSelection h sel)
                          | None => []
                          end)) as Hcount.
  { intros f Hf. rewrite count_flag_app, (count_flag_fixedArgs f r baseArgs _ _ Hf Hc Hr).
    destruct filter as [sel|].
    - rewrite count_flag_app, (count_flag_grepArgs f _ Hf), count_flag_runArgs. lia.
    - change (count_flag f []) with 0. cbn [length].
      destruct (str_eqb f (lit "--run")); lia. }
  split.
  { rewrite (Hcount (lit "--grep") (or_intror eq_refl)).
    change (str_eqb (lit "--grep") (lit "--grep")) with true.
    change (str_eqb (lit "--grep") (lit "--run")) with false.
    destruct filter as [sel|]; [|reflexivity].
    destruct (grepArgs (fst (resolveSelection h sel))); lia. }
  split.
  { rewrite (Hcount (lit "--run") (or_introl eq_refl)).
    change (str_eqb (lit "--run") (lit "--grep")) with false.
    change (str_eqb (lit "--run") (lit "--run")) with true.
    destruct filter as [sel|]; [|reflexivity].
    destruct (grepArgs (fst (resolveSelection h sel))); lia. }
  intros Hp. apply Forall_app. split; [apply fixedArgs_nonempty|].
  destruct filter as [sel|]; [|constructor].
  apply Forall_app. split; [apply grepArgs_nonempty|now apply runArgs_nonempty].
Qed.

Lemma argument_vector_invariant_witness :
  exists fixed grep runPaths,
    prepareArgs Fixture.host Fixture.runner [] None = Ok fixed /\
    Fixture.fixed ++ [lit "--run"; lit "src/a.spec.ts"; lit "--run"; lit "src/b.spec.ts"] =
    fixed ++ grep ++ flat_map (fun p => [lit "--run"; p]) runPaths /\
    Forall (fun a => a <> []) (fixed ++ grep) /\
    (grep = [] \/ exists token, token <> [] /\ grep = [lit "--grep"; token]) /\
    NoDup runPaths /\
    length (runArgs runPaths) = 2 * length runPaths /\
    (Some [Fixture.fileA; Fixture.fileB] = None -> grep = [] /\ runPaths = []) /\
    (forall sel, Some [Fixture.fileA; Fixture.fileB] = Some sel ->
       grep = grepArgs (fst (resolveSelection Fixture.host sel)) /\
       runPaths = snd (resolveSelection Fixture.host sel) /\
       forall p, In p runPaths <->
                 exists t, In t sel /\ In p (itemPaths Fixture.host t)) /\
    count_flag "--grep"
      (Fixture.fixed ++
       [lit "--run"; lit "src/a.spec.ts"; lit "--run"; lit "src/b.spec.ts"]) =
      count_flag "--grep" [] +
      match grep with [] => 0 | _ :: _ => 1 end +
      count_flag "--grep" runPaths /\
    count_flag "--run"
      (Fixture.fixed ++
       [lit "--run"; lit "src/a.spec.ts"; lit "--run"; lit "src/b.spec.ts"]) =
      count_flag "--run" [] + length runPaths + count_flag "--run" runPaths /\
    (Forall (fun p => p <> []) runPaths ->
     Forall (fun a => a <> [])
       (Fixture.fixed ++
        [lit "--run"; lit "src/a.spec.ts"; lit "--run"; lit "src/b.spec.ts"])).
Proof.
  apply (@argument_vector_invariant Fixture.host Fixture.runner []
           (Some [Fixture.fileA; Fixture.fileB])).
  reflexivity.
Defined.

(** ** C8: one [--run] pair for one file *)

(** C8: the run paths of every selection hold no path twice, and for every
    non-empty selection of test cases that all belong to the file of run
    path [path], the argument vector is the vector [prepareArgs] produces
    without a selection, followed by [--grep] with the alternation of the
    selection and by the one pair [--run path] and nothing else: beyond the
    base arguments [--run] occurs exactly once (twice only if the path
    itself reads [--run]). *)
Theorem same_file_single_run_pair
  (h : Host) (r : AngularTestRunner) (baseArgs : list str)
  (sel : list TestItem) (args : list str) (path : str) :
  prepareArgs h r baseArgs (Some sel) = Ok args ->
  sel <> [] ->
  (forall t, In t sel ->
     (exists n, data t = Some (TestCase n)) /\
     itemPaths h t <> [] /\
     forall p, In p (itemPaths h t) -> p = path) ->
  NoDup (snd (resolveSelection h sel)) /\
  snd (resolveSelection h sel) = [path] /\
  exists fixed token,
    prepareArgs h r baseArgs None = Ok fixed /\
    token = grepToken (fst (resolveSelection h sel)) /\
    args = fixed ++ [lit "--grep"; token] ++ [lit "--run"; path] /\
    count_flag "--run" args =
      count_flag "--run" baseArgs + 1 + count_flag "--run" [path].
Proof.
  intros Hargs Hne Hsel.
  assert (snd (resolveSelection h sel) = [path]) as Hpaths.
  { apply NoDup_constant.
    - apply resolve_NoDup.
    - intros q Hq. apply resolve_In in Hq as (t & Ht & Hqt).
      now apply (Hsel t Ht).
    - destruct sel as [|t sel]; [congruence|].
      destruct (Hsel t (or_introl eq_refl)) as (_ & Hnon & Hall).
      apply resolve_In. exists t. split; [now left|].
      destruct (itemPaths h t) as [|q qs]; [congruence|].
      rewrite <- (Hall q (or_introl eq_refl)). now left. }
  split; [apply resolve_NoDup|]. split; [assumption|].
  destruct (prepareArgs_shape _ _ _ _ _ Hargs) as (rep & Hrep & ->).
  rewrite Hpaths.
  assert (nameExprs sel <> []) as HneE.
  { destruct sel as [|t sel]; [congruence|].
    destruct (Hsel t (or_introl eq_refl)) as ((n & Hn) & _).
    unfold nameExprs. simpl. unfold nameExpr at 1. rewrite Hn. discriminate. }
  assert (grepArgs (fst (resolveSelection h sel)) =
          [lit "--grep"; grepToken (fst (resolveSelection h sel))]) as Hgrep.
  { rewrite resolve_grep.
    destruct (map expr_str (nameExprs sel)) as [|e es] eqn:E; [|reflexivity].
    apply map_eq_nil in E. contradiction. }
  exists (fixedArgs r baseArgs (getConfigName h) rep),
         (grepToken (fst (resolveSelection h sel))).
  split; [now apply prepareArgs_unfiltered|].
  split; [reflexivity|].
  split; [now rewrite Hgrep|].
  rewrite count_flag_app,
    (count_flag_fixedArgs (lit "--run") r baseArgs _ _ (or_introl eq_refl)
       (getConfigName_form h) (getReporters_form h rep Hrep)).
  rewrite count_flag_app, (count_flag_grepArgs (lit "--run") _ (or_introl eq_refl)).
  change (str_eqb (lit "--run") (lit "--grep")) with false.
  rewrite count_flag_runArgs.
  change (str_eqb (lit "--run") (lit "--run")) with true.
  cbn [length].
  destruct (grepArgs (fst (resolveSelection h sel))); lia.
Qed.

Lemma same_file_single_run_pair_witness :
  NoDup (snd (resolveSelection Fixture.host
                [Fixture.case1; Fixture.case2; Fixture.case3])) /\
  snd (resolveSelection Fixture.host
         [Fixture.case1; Fixture.case2; Fixture.case3]) = [lit "src/a.spec.ts"] /\
  exists fixed token,
    prepareArgs Fixture.host Fixture.runner [] None = Ok fixed /\
    token = grepToken (fst (resolveSelection Fixture.host
                              [Fixture.case1; Fixture.case2; Fixture.case3])) /\
    Fixture.fixed ++
      [lit "--grep"; lit "/^(Foo one$|Foo two$|FooBar three$)/";
       lit "--run"; lit "src/a.spec.ts"] =
    fixed ++ [lit "--grep"; token] ++ [lit "--run"; lit "src/a.spec.ts"] /\
    count_flag "--run"
      (Fixture.fixed ++
       [lit "--grep"; lit "/^(Foo one$|Foo two$|FooBar three$)/";
        lit "--run"; lit "src/a.spec.ts"]) =
      count_flag "--run" [] + 1 + count_flag "--run" [lit "src/a.spec.ts"].
Proof.
  apply (@same_file_single_run_pair Fixture.host Fixture.runner []
           [Fixture.case1; Fixture.case2; Fixture.case3]).
  - reflexivity.
  - discriminate.
  - intros t [<-|[<-|[<-|[]]]]; (split; [eexists; reflexivity|]);
      (split; [discriminate|]); intros p [<-|[]]; reflexivity.
Defined.

(** ** C9: the text scan of the reporters *)

Lemma split_absent (c : ascii) (s acc : str) :
  existsb (Ascii.eqb c) s = false -> split_go [c] 0 acc s = [rev acc ++ s].
Proof.
  revert acc. induction s as [|x s IH]; intros acc H; simpl.
  - now rewrite app_nil_r.
  - simpl in H. apply orb_false_iff in H as [Hx Hs].
    rewrite Hx. simpl. rewrite (IH (x :: acc) Hs). simpl.
    now rewrite <- app_assoc.
Qed.

Lemma existsb_skipn {A} (f : A -> bool) (n : nat) (l : list A) :
  existsb f l = false -> existsb f (skipn n l) = false.
Proof.
  revert l. induction n as [|n IH]; intros [|x l]; simpl; auto.
  intros H. apply orb_false_iff in H as [_ H]. now apply IH.
Qed.

Lemma existsb_firstn {A} (f : A -> bool) (n : nat) (l : list A) :
  existsb f l = false -> existsb f (firstn n l) = false.
Proof.
  revert l. induction n as [|n IH]; intros [|x l]; simpl; auto.
  intros H. apply orb_false_iff in H as [Hx H]. rewrite Hx. now apply IH.
Qed.

(** A content with the text ["reporters: "] and no opening bracket makes the
    scan throw. *)
Lemma scanReporters_throws (content : str) :
  includes content "reporters: " = true ->
  existsb (Ascii.eqb "[") content = false ->
  scanReporters content = Throw TypeError_split.
Proof.
  intros Hinc Hno. unfold scanReporters. rewrite Hinc.
  unfold split, slice. change (lit "[") with ["["%char].
  rewrite split_absent; [reflexivity|].
  now apply existsb_firstn, existsb_skipn.
Qed.

(** [split] always gives at least one piece. *)
Lemma split_go_nonempty (sep : str) (s : str) :
  forall (n : nat) (acc : str), exists p ps, split_go sep n acc s = p :: ps.
Proof.
  induction s as [|x s IH]; intros n acc; cbn [split_go].
  - eexists. eexists. reflexivity.
  - destruct n as [|n]; [|apply IH].
    destruct (startsWith sep (x :: s)); [|apply IH].
    eexists. eexists. reflexivity.
Qed.

Lemma split_present (c : ascii) (s acc : str) :
  existsb (Ascii.eqb c) s = true ->
  exists piece, nth_error (split_go [c] 0 acc s) 1 = Some piece.
Proof.
  revert acc. induction s as [|x s IH]; intros acc H; [discriminate|].
  cbn [split_go startsWith]. simpl in H.
  destruct (Ascii.eqb c x) eqn:E; cbn [andb length Nat.sub].
  - destruct (split_go_nonempty [c] s 0 []) as (p & ps & ->).
    exists p. reflexivity.
  - apply (IH (x :: acc) H).
Qed.

(** With an opening bracket between ["reporters: "] and the end of the
    slice, the scan returns a [--reporters=] token. *)
Lemma scanReporters_returns (content : str) :
  includes content "reporters: " = true ->
  existsb (Ascii.eqb "[")
    (slice content (indexOf content "reporters: " 0)
       (indexOf content "]" (Z.to_nat (indexOf content "reporters: " 0)))) = true ->
  exists list, scanReporters content = Ok (lit "--reporters=" ++ list).
Proof.
  intros Hinc Hb. unfold scanReporters. rewrite Hinc. unfold split.
  change (lit "[") with ["["%char].
  destruct (split_present "[" _ [] Hb) as (piece & ->).
  eexists. reflexivity.
Qed.

(** Without the text ["reporters: "] the scan gives the empty string. *)
Lemma scanReporters_absent (content : str) :
  includes content "reporters: " = false -> scanReporters content = Ok [].
Proof. intros H. unfold scanReporters. now rewrite H. Qed.

(** A missing, unreadable or empty config file gives the empty string. *)
Lemma getReporters_without_content (h : Host) :
  karmaConfFiles h = [] \/
  (exists f fs, karmaConfFiles h = f :: fs /\
                (readFile h f = None \/ readFile h f = Some [])) ->
  getReporters h = Ok [].
Proof.
  unfold getReporters. intros [->|(f & fs & -> & [->| ->])]; reflexivity.
Qed.

(** C9 (the code at the failing input): for a config file that reads
    [reporters: foo] -- the text ["reporters: "] with no [[] after it --
    [getReporters] throws a TypeError instead of returning the empty string,
    and [prepareArgs] throws with it. *)
Theorem getReporters_throws_without_bracket :
  getReporters MalformedConfig.host = Throw TypeError_split /\
  prepareArgs MalformedConfig.host Fixture.runner [] None = Throw TypeError_split.
Proof. split; reflexivity. Qed.

(** With a bracketed list the scan answers as the specification says. *)
Example scanReporters_wellformed :
  scanReporters "module.exports = { reporters: ['progress', 'kjhtml'], port: 1 }" =
  Ok (lit "--reporters=progress,kjhtml").
Proof. reflexivity. Qed.

(** ** C6: the debug flow without its launch configuration *)

Lemma find_none_iff (configs : list DebugConfiguration) :
  find (fun c => str_eqb (cfg_name c) ATTACH_CONFIG_NAME) configs = None <->
  (forall c, In c configs -> cfg_name c <> ATTACH_CONFIG_NAME).
Proof.
  split.
  - intros H c Hc. apply (find_none _ _ H) in Hc. now apply str_eqb_neq.
  - intros H. induction configs as [|c cs IH]; simpl; [reflexivity|].
    destruct (str_eqb (cfg_name c) ATTACH_CONFIG_NAME) eqn:E.
    + apply str_eqb_eq in E. exfalso. apply (H c); [now left|assumption].
    + apply IH. intros c' Hc'. apply H. now right.
Qed.

(** C6: when no launch configuration is named "Attach to VS Code", [debug]
    throws "Could not find launch config Attach to VS Code" having done
    nothing: no subprocess is spawned and the wait server is not opened. *)
Theorem debug_fails_fast_without_attach_config
  (h : Host) (r : AngularTestRunner)
  (configurations : option (list DebugConfiguration))
  (baseArgs : list str) (filter : option (list TestItem)) :
  (forall c, In c (configsOf configurations) -> cfg_name c <> ATTACH_CONFIG_NAME) ->
  runDebug h r configurations baseArgs filter =
    ([], Throw (lit "Could not find launch config Attach to VS Code")) /\
  ~ In Listen (fst (runDebug h r configurations baseArgs filter)) /\
  (forall commandLine cwd,
      ~ In (Spawn commandLine cwd) (fst (runDebug h r configurations baseArgs filter))).
Proof.
  intros H. apply find_none_iff in H.
  assert (runDebug h r configurations baseArgs filter =
          ([], Throw (lit "Could not find launch config Attach to VS Code"))) as E.
  { unfold runDebug, debug. fold (configsOf configurations). now rewrite H. }
  rewrite E. split; [reflexivity|]. split; [intros []|intros ? ? []].
Qed.

Lemma debug_fails_fast_without_attach_config_witness :
  runDebug Fixture.host Fixture.runner
    (Some [mkConfig "Launch Chrome" "pwa-chrome" "launch"]) []
    (Some [Fixture.case1]) =
    ([], Throw (lit "Could not find launch config Attach to VS Code")) /\
  ~ In Listen
      (fst (runDebug Fixture.host Fixture.runner
              (Some [mkConfig "Launch Chrome" "pwa-chrome" "launch"]) []
              (Some [Fixture.case1]))) /\
  (forall commandLine cwd,
      ~ In (Spawn commandLine cwd)
          (fst (runDebug Fixture.host Fixture.runner
                  (Some [mkConfig "Launch Chrome" "pwa-chrome" "launch"]) []
                  (Some [Fixture.case1])))).
Proof.
  apply debug_fails_fast_without_attach_config.
  intros c [<-|[]]. discriminate.
Defined.

(** With the configuration present the flow opens the wait server, spawns
    the subprocess and registers its callbacks, in this order. *)
Lemma debug_with_attach_config
  (h : Host) (r : AngularTestRunner) (configs : list DebugConfiguration)
  (baseArgs : list str) (filter : option (list TestItem)) (args : list str) :
  (exists c, In c configs /\ cfg_name c = ATTACH_CONFIG_NAME) ->
  prepareArgs h r baseArgs filter = Ok args ->
  runDebug h r (Some configs) baseArgs filter =
    ([Listen; Spawn (join " " args) (workspace r);
      RegisterTrackerFactory DEBUG_TYPE; OnceExit; OnDidStartDebugSession],
     Ok initial).
Proof.
  intros (c & Hc & Hn) Hargs. unfold runDebug, debug.
  destruct (find _ configs) as [c'|] eqn:F.
  - unfold mbind, createWaitServer, emit, lift, ret. simpl. now rewrite Hargs.
  - exfalso. apply (find_none _ _ F) in Hc. rewrite Hn, str_eqb_refl in Hc. discriminate.
Qed.

(** ** The debug flow after [debug] has returned *)

Ltac unfold_step :=
  cbn [step];
  unfold onConnection, createDebugAdapterTracker, onWillReceiveMessage,
    onDidSendMessage, sessionListener, onExit, server_ready, server_dispose,
    set_ready, set_onReady, set_rootSession, set_trackers, accepts.

Ltac split_step :=
  repeat match goal with
    | |- context [if ?c then _ else _] => destruct c eqn:?
    | |- context [match ?x with _ => _ end] => destruct x eqn:?
    end.

Ltac step_cases e := destruct e; unfold_step; split_step; cbn.

Lemma run_cons (e : Event) (tr : list Event) (st : State) :
  run (e :: tr) st =
  (fst (run tr (fst (step e st))), snd (step e st) ++ snd (run tr (fst (step e st)))).
Proof.
  cbn [run]. destruct (step e st) as [st1 o1]. cbn [fst snd].
  now destruct (run tr st1).
Qed.

Lemma run_app (tr tr' : list Event) (st : State) :
  run (tr ++ tr') st =
  (fst (run tr' (fst (run tr st))),
   snd (run tr st) ++ snd (run tr' (fst (run tr st)))).
Proof.
  revert st. induction tr as [|e tr IH]; intros st.
  - cbn [app run fst snd]. now destruct (run tr' st).
  - rewrite <- app_comm_cons, !run_cons, IH. cbn [fst snd].
    now rewrite app_assoc.
Qed.

Lemma step_ready_mono (e : Event) (st : State) :
  ready st = true -> ready (fst (step e st)) = true.
Proof. intros H. step_cases e; congruence. Qed.

Lemma run_ready_mono (tr : list Event) (st : State) :
  ready st = true -> ready (fst (run tr st)) = true.
Proof.
  revert st. induction tr as [|e tr IH]; intros st H; [assumption|].
  rewrite run_cons. cbn [fst]. apply IH. now apply step_ready_mono.
Qed.

Lemma transitions_ready (tr : list Event) (st : State) :
  ready st = true -> transitions tr st = 0.
Proof.
  revert st. induction tr as [|e tr IH]; intros st H; [reflexivity|].
  cbn [transitions]. rewrite H. cbn [negb andb].
  apply IH. now apply step_ready_mono.
Qed.

Lemma transitions_le_1 (tr : list Event) (st : State) : transitions tr st <= 1.
Proof.
  revert st. induction tr as [|e tr IH]; intros st; cbn [transitions]; [lia|].
  destruct (negb (ready st) && ready (fst (step e st))) eqn:E.
  - apply andb_true_iff in E as [_ E]. rewrite (transitions_ready tr _ E). lia.
  - specialize (IH (fst (step e st))). lia.
Qed.

Lemma step_not_ready (e : Event) (st : State) :
  ready (fst (step e st)) = false ->
  onReady (fst (step e st)) = onReady st ++ accepts e st /\
  forall s, ~ In (SocketEnd s) (snd (step e st)).
Proof.
  step_cases e; intros H; try congruence; rewrite ?app_nil_r;
    (split; [reflexivity|]); intros sock Hs; cbn in Hs;
    try tauto;
    repeat (destruct Hs as [Hs|Hs]; try discriminate; try tauto).
Qed.

Lemma run_not_ready (tr : list Event) (st : State) :
  ready (fst (run tr st)) = false ->
  onReady (fst (run tr st)) = onReady st ++ accepted tr st /\
  forall s, ~ In (SocketEnd s) (snd (run tr st)).
Proof.
  revert st. induction tr as [|e tr IH]; intros st.
  - cbn. intros _. rewrite app_nil_r. split; [reflexivity|tauto].
  - rewrite run_cons. cbn [fst snd accepted]. intros H.
    destruct (ready (fst (step e st))) eqn:E.
    + rewrite (run_ready_mono tr _ E) in H. discriminate.
    + destruct (IH _ H) as [Hq Hn]. destruct (step_not_ready e st E) as [Hq1 Hn1].
      split.
      * rewrite Hq, Hq1. now rewrite app_assoc.
      * intros s Hs. apply in_app_iff in Hs as [Hs|Hs]; [now apply (Hn1 s)|now apply (Hn s)].
Qed.

Lemma step_transition (e : Event) (st : State) :
  ready st = false -> ready (fst (step e st)) = true ->
  snd (step e st) = map SocketEnd (onReady st) /\ onReady (fst (step e st)) = onReady st.
Proof.
  intros H. step_cases e; intros H'; try congruence; split; reflexivity.
Qed.

Lemma step_after_ready (s : nat) (st : State) :
  ready st = true -> listening st = true -> step (Connect s) st = (st, [SocketEnd s]).
Proof. intros H L. cbn [step]. unfold onConnection. now rewrite L, H. Qed.

(** ** When the gate opens *)

Lemma strict_eq_eq (a b : option nat) : strict_eq a b = true <-> a = b.
Proof.
  destruct a as [x|], b as [y|]; cbn [strict_eq]; split; intros H;
    try discriminate; try reflexivity.
  - apply Nat.eqb_eq in H. now subst.
  - injection H as ->. apply Nat.eqb_refl.
Qed.

Lemma is_response_eq (t : option str) :
  is_response t = true <-> t = Some (lit "response").
Proof.
  destruct t as [t|]; cbn [is_response]; [|split; discriminate].
  rewrite str_eqb_eq. split; [now intros ->|now intros [= ->]].
Qed.

(** A response that answers the request the tracker recorded calls
    [server.ready()]. *)
Lemma step_matching_response (i : nat) (m : Message) (st : State) :
  type m = Some (lit "response") ->
  nth_error (trackers st) i = Some (request_seq m) ->
  step (DidSend i m) st = (set_ready true st, map SocketEnd (onReady st)).
Proof.
  intros Ht Hn. cbn [step]. unfold onDidSendMessage. rewrite Hn.
  apply is_response_eq in Ht. rewrite Ht.
  rewrite (proj2 (strict_eq_eq (request_seq m) (request_seq m)) eq_refl).
  reflexivity.
Qed.

(** No other step makes the gate ready. *)
Lemma step_opens (e : Event) (st : State) :
  ready st = false -> ready (fst (step e st)) = true ->
  exists i m, e = DidSend i m /\
              type m = Some (lit "response") /\
              nth_error (trackers st) i = Some (request_seq m).
Proof.
  intros H H'. destruct e as [s|s|i m|i m|s|].
  1-3, 5-6: exfalso; revert H'; unfold_step; split_step; cbn; congruence.
  exists i, m. split; [reflexivity|].
  revert H'. cbn [step]. unfold onDidSendMessage.
  destruct (nth_error (trackers st) i) as [k|]; [|cbn; congruence].
  destruct (is_response (type m)) eqn:Er; [|cbn; congruence].
  destruct (strict_eq (request_seq m) k) eqn:Es; [|cbn; congruence].
  intros _. apply is_response_eq in Er. apply strict_eq_eq in Es.
  split; [assumption|now rewrite Es].
Qed.

Lemma run_opens (tr : list Event) (st : State) :
  ready st = false -> ready (fst (run tr st)) = true ->
  exists pre i m post,
    tr = pre ++ DidSend i m :: post /\
    ready (fst (run pre st)) = false /\
    type m = Some (lit "response") /\
    nth_error (trackers (fst (run pre st))) i = Some (request_seq m).
Proof.
  revert st. induction tr as [|e tr IH]; intros st H H'.
  - cbn in H'. congruence.
  - rewrite run_cons in H'. cbn [fst] in H'.
    destruct (ready (fst (step e st))) eqn:E.
    + destruct (step_opens e st H E) as (i & m & -> & Ht & Hn).
      exists [], i, m, tr. now repeat split.
    + destruct (IH _ E H') as (pre & i & m & post & -> & Hr & Ht & Hn).
      exists (e :: pre), i, m, post. rewrite run_cons. cbn [fst].
      now repeat split.
Qed.

Lemma run_opened (pre post : list Event) (i : nat) (m : Message) (st : State) :
  type m = Some (lit "response") ->
  nth_error (trackers (fst (run pre st))) i = Some (request_seq m) ->
  ready (fst (run (pre ++ DidSend i m :: post) st)) = true.
Proof.
  intros Ht Hn. rewrite run_app. cbn [fst]. rewrite run_cons. cbn [fst].
  apply run_ready_mono. now rewrite (step_matching_response i m _ Ht Hn).
Qed.

Lemma transitions_count (tr : list Event) (st : State) :
  ready st = false ->
  transitions tr st = if ready (fst (run tr st)) then 1 else 0.
Proof.
  revert st. induction tr as [|e tr IH]; intros st H.
  - cbn. now rewrite H.
  - cbn [transitions]. rewrite run_cons. cbn [fst]. rewrite H. cbn [negb andb].
    destruct (ready (fst (step e st))) eqn:E.
    + now rewrite (transitions_ready tr _ E), (run_ready_mono tr _ E).
    + now rewrite (IH _ E).
Qed.

(** ** C5: the readiness gate *)

(** A run in which no response to the launch or attach request is seen:
    the gate never becomes ready and the waiting connection is never
    closed, also when the subprocess exits. *)
Lemma gate_may_never_open :
  transitions [Connect 1; ProcessExit] initial = 0 /\
  ready (fst (run [Connect 1; ProcessExit] initial)) = false /\
  onReady (fst (run [Connect 1; ProcessExit] initial)) = [1] /\
  snd (run [Connect 1; ProcessExit] initial) =
    [ServerClose; ListenerDispose; FactoryDispose].
Proof. repeat split; reflexivity. Qed.

(** A run in which it opens. *)
Example gate_opens_once :
  let root := mkSession 1 "Attach to VS Code" None in
  let child := mkSession 2 "page" (Some 1) in
  let attach := mkMessage (Some (lit "request")) (Some (lit "attach")) (Some 7) None in
  let reply := mkMessage (Some (lit "response")) (Some (lit "attach")) (Some 8) (Some 7) in
  let tr := [SessionStarted root; CreateTracker child; Connect 5;
             WillReceive 0 attach; DidSend 0 reply; Connect 6; DidSend 0 reply] in
  transitions tr initial = 1 /\
  snd (run tr initial) = [SocketEnd 5; SocketEnd 6; SocketEnd 5].
Proof. split; reflexivity. Qed.

(** A tracker that has recorded no request has [initRequestId] undefined,
    and a response that carries no [request_seq] compares equal to it: the
    gate opens on it. *)
Example gate_opens_on_undefined_ids :
  let root := mkSession 1 "Attach to VS Code" None in
  let child := mkSession 2 "page" (Some 1) in
  let reply := mkMessage (Some (lit "response")) None (Some 8) None in
  let tr := [SessionStarted root; CreateTracker child; Connect 5; DidSend 0 reply] in
  transitions tr initial = 1 /\
  snd (run tr initial) = [SocketEnd 5].
Proof. split; reflexivity. Qed.

(** C5 (amended): along every sequence of events after [debug] has returned
    the gate goes from not ready to ready at most once and never back:
    exactly once in a run in which some tracker is sent a message of type
    [response] whose [request_seq] is [===] the [initRequestId] the tracker
    holds at that moment (both may be undefined), and not at all in a run
    without such a message.  While the gate is not ready, every accepted
    connection is queued and none has been closed; such a message makes the
    gate ready and closes all queued connections in that step, and no other
    step makes it ready; and a connection that arrives once it is ready,
    while the server listens, is closed on arrival. *)
Theorem readiness_gate_one_shot (tr : list Event) :
  let st := fst (run tr initial) in
  transitions tr initial <= 1 /\
  (transitions tr initial = 1 <-> ready st = true) /\
  (ready st = true <->
   exists pre i m post,
     tr = pre ++ DidSend i m :: post /\
     type m = Some (lit "response") /\
     nth_error (trackers (fst (run pre initial))) i = Some (request_seq m)) /\
  (ready st = true -> forall tr', ready (fst (run tr' st)) = true) /\
  (ready st = false ->
     onReady st = accepted tr initial /\
     forall s, ~ In (SocketEnd s) (snd (run tr initial))) /\
  (forall i m, type m = Some (lit "response") ->
     nth_error (trackers st) i = Some (request_seq m) ->
     ready (fst (step (DidSend i m) st)) = true /\
     snd (step (DidSend i m) st) = map SocketEnd (onReady st)) /\
  (forall e, ready st = false -> ready (fst (step e st)) = true ->
     (exists i m, e = DidSend i m /\
                  type m = Some (lit "response") /\
                  nth_error (trackers st) i = Some (request_seq m)) /\
     snd (step e st) = map SocketEnd (accepted tr initial)) /\
  (forall s, ready st = true -> listening st = true ->
     step (Connect s) st = (st, [SocketEnd s])).
Proof.
  intros st. split; [apply transitions_le_1|].
  split.
  { rewrite (transitions_count tr initial eq_refl). fold st.
    destruct (ready st); split; congruence. }
  split.
  { split.
    - intros H. destruct (run_opens tr initial eq_refl H)
        as (pre & i & m & post & E & _ & Ht & Hn).
      now exists pre, i, m, post.
    - intros (pre & i & m & post & E & Ht & Hn). unfold st. rewrite E.
      now apply run_opened. }
  split; [intros H tr'; now apply run_ready_mono|].
  split; [intros H; apply (run_not_ready tr initial H)|].
  split.
  { intros i m Ht Hn. now rewrite (step_matching_response i m st Ht Hn). }
  split.
  - intros e H H'. split; [now apply step_opens|].
    destruct (step_transition e st H H') as [-> _].
    destruct (run_not_ready tr initial H) as [Hq _]. fold st in Hq. now rewrite Hq.
  - intros s. apply step_after_ready.
Qed.

(** ** C10: the root session *)

Lemma step_root_stable (e : Event) (st : State) (r : DebugSession) :
  rootSession st = Some r -> rootSession (fst (step e st)) = Some r.
Proof.
  intros H. step_cases e; try assumption.
  all: rewrite H in *; cbn in *; rewrite ?andb_false_r in *; congruence.
Qed.

Lemma run_root_stable (tr : list Event) (st : State) (r : DebugSession) :
  rootSession st = Some r -> rootSession (fst (run tr st)) = Some r.
Proof.
  revert st. induction tr as [|e tr IH]; intros st H; [assumption|].
  rewrite run_cons. cbn [fst]. apply IH. now apply step_root_stable.
Qed.

Lemma step_disposed (e : Event) (st : State) :
  listenerActive st = false ->
  listenerActive (fst (step e st)) = false /\
  rootSession (fst (step e st)) = rootSession st.
Proof. intros H. step_cases e; split; congruence. Qed.

Lemma run_disposed (tr : list Event) (st : State) :
  listenerActive st = false -> rootSession (fst (run tr st)) = rootSession st.
Proof.
  revert st. induction tr as [|e tr IH]; intros st H; [reflexivity|].
  rewrite run_cons. cbn [fst]. destruct (step_disposed e st H) as [H1 H2].
  now rewrite (IH _ H1).
Qed.

Lemma step_disposed_after_exit (e : Event) (st : State) :
  disposed_after_exit st -> disposed_after_exit (fst (step e st)).
Proof.
  unfold disposed_after_exit. intros H.
  step_cases e; intros He; try reflexivity;
    first [specialize (H He) | specialize (H eq_refl)]; congruence.
Qed.

Lemma run_disposed_after_exit (tr : list Event) (st : State) :
  disposed_after_exit st -> disposed_after_exit (fst (run tr st)).
Proof.
  revert st. induction tr as [|e tr IH]; intros st H; [assumption|].
  rewrite run_cons. cbn [fst]. apply IH. now apply step_disposed_after_exit.
Qed.

Lemma initial_disposed_after_exit : disposed_after_exit initial.
Proof. unfold disposed_after_exit. discriminate. Qed.

(** While nothing is recorded, the subprocess runs and the listener is
    registered, the trace decides the root session. *)
Lemma run_firstAttach (tr : list Event) (st : State) :
  rootSession st = None -> exited st = false -> listenerActive st = true ->
  rootSession (fst (run tr st)) = firstAttach tr.
Proof.
  revert st. induction tr as [|e tr IH]; intros st Hr He Hl; [assumption|].
  rewrite run_cons. cbn [fst].
  destruct e; cbn [firstAttach].
  1-4: apply IH; unfold_step; split_step; cbn; assumption.
  - cbn [step]. rewrite Hl. unfold sessionListener. rewrite Hr, He. cbn [undefined_session].
    rewrite andb_true_r.
    destruct (str_eqb (name s) ATTACH_CONFIG_NAME).
    + cbn [fst]. now apply run_root_stable.
    + cbn [fst]. now apply IH.
  - cbn [step]. rewrite He. rewrite run_disposed; cbn; [assumption|reflexivity].
Qed.

Lemma assignments_disposed (tr : list Event) (st : State) :
  listenerActive st = false -> assignments tr st = 0.
Proof.
  revert st. induction tr as [|e tr IH]; intros st H; [reflexivity|].
  cbn [assignments]. destruct (step_disposed e st H) as [H1 H2].
  rewrite H2, (IH _ H1). destruct (rootSession st); [now rewrite Nat.eqb_refl|reflexivity].
Qed.

Lemma assignments_recorded (tr : list Event) (st : State) (r : DebugSession) :
  rootSession st = Some r -> assignments tr st = 0.
Proof.
  revert st. induction tr as [|e tr IH]; intros st H; [reflexivity|].
  cbn [assignments]. pose proof (step_root_stable e st r H) as H1.
  rewrite H, H1, Nat.eqb_refl. now apply IH.
Qed.

Lemma assignments_le_1 (tr : list Event) (st : State) : assignments tr st <= 1.
Proof.
  revert st. induction tr as [|e tr IH]; intros st; cbn [assignments]; [lia|].
  destruct (rootSession st) as [r|] eqn:Hr.
  - rewrite (step_root_stable e st r Hr), Nat.eqb_refl.
    rewrite (assignments_recorded tr _ r (step_root_stable e st r Hr)). lia.
  - destruct (rootSession (fst (step e st))) as [r'|] eqn:Hr'.
    + rewrite (assignments_recorded tr _ r' Hr'). lia.
    + specialize (IH (fst (step e st))). lia.
Qed.

Lemma step_stop_requests (e : Event) (st : State) (x : option DebugSession) :
  disposed_after_exit st ->
  In (StopDebugging x) (snd (step e st)) ->
  exists r, x = Some r /\ rootSession st = Some r.
Proof.
  unfold disposed_after_exit. intros Hd.
  step_cases e; intros Hin; cbn in Hin;
    repeat match type of Hin with
      | _ \/ _ => destruct Hin as [Hin|Hin]
      end;
    try contradiction; try discriminate.
  - apply in_map_iff in Hin as (sock & Habs & _). discriminate.
  - first [specialize (Hd Heqb1) | specialize (Hd eq_refl)]. congruence.
  - injection Hin as <-. eexists. split; reflexivity.
Qed.

Lemma run_stop_requests (tr : list Event) (st : State) (x : option DebugSession) :
  disposed_after_exit st ->
  In (StopDebugging x) (snd (run tr st)) ->
  exists r, x = Some r /\ rootSession (fst (run tr st)) = Some r.
Proof.
  revert st. induction tr as [|e tr IH]; intros st Hd; [intros []|].
  rewrite run_cons. cbn [fst snd]. intros Hin.
  apply in_app_iff in Hin as [Hin|Hin].
  - destruct (step_stop_requests e st x Hd Hin) as (r & -> & Hr).
    exists r. split; [reflexivity|].
    apply run_root_stable. now apply step_root_stable.
  - apply IH; [now apply step_disposed_after_exit|assumption].
Qed.

(** The body of the listener, had it been called after the exit with no
    root session recorded. *)
Lemma sessionListener_after_exit (s : DebugSession) (st : State) :
  exited st = true -> rootSession st = None -> name s = ATTACH_CONFIG_NAME ->
  sessionListener s st = (st, [StopDebugging None]).
Proof.
  intros He Hr Hn. unfold sessionListener.
  now rewrite Hn, str_eqb_refl, Hr, He.
Qed.

(** A session of the attach name that starts after the subprocess has
    exited: the listener is disposed by then, nothing is recorded and no
    stop request is made. *)
Lemma late_session_is_not_heard :
  let late := mkSession 1 "Attach to VS Code" None in
  name late = ATTACH_CONFIG_NAME /\
  rootSession (fst (run [ProcessExit; SessionStarted late] initial)) = None /\
  snd (run [ProcessExit; SessionStarted late] initial) =
    [ServerClose; ListenerDispose; FactoryDispose] /\
  ~ In (StopDebugging None) (snd (run [ProcessExit; SessionStarted late] initial)).
Proof.
  cbn zeta. repeat split.
  cbn. intros H. repeat (destruct H as [H|H]; try discriminate). exact H.
Qed.

(** C10 (amended): along every sequence of events of one debug invocation
    [rootSession] is assigned at most once: it is the first session named
    "Attach to VS Code" that starts before the subprocess exits, and once
    recorded it is never overwritten.  A session that starts after the exit
    is never recorded, and no stop request is made for it: the exit handler
    has disposed the listener, so its call of [stopDebugging] with the
    undefined [rootSession] is never reached, and every stop request made
    carries the recorded root session. *)
Theorem root_session_recorded_once (tr : list Event) :
  let st := fst (run tr initial) in
  rootSession st = firstAttach tr /\
  assignments tr initial <= 1 /\
  (forall r, rootSession st = Some r ->
     forall tr', rootSession (fst (run tr' st)) = Some r) /\
  (exited st = true -> forall s, step (SessionStarted s) st = (st, [])) /\
  (forall x, In (StopDebugging x) (snd (run tr initial)) ->
     exists r, x = Some r /\ firstAttach tr = Some r) /\
  (forall s st0, exited st0 = true -> rootSession st0 = None ->
     name s = ATTACH_CONFIG_NAME ->
     sessionListener s st0 = (st0, [StopDebugging None])).
Proof.
  intros st.
  assert (rootSession st = firstAttach tr) as Hroot
    by (apply run_firstAttach; reflexivity).
  split; [assumption|].
  split; [apply assignments_le_1|].
  split; [intros r Hr tr'; now apply run_root_stable|].
  split.
  - intros He s. cbn [step].
    pose proof (run_disposed_after_exit tr initial initial_disposed_after_exit) as Hd.
    fold st in Hd. now rewrite (Hd He).
  - split.
    + intros x Hin. rewrite <- Hroot.
      apply (run_stop_requests tr initial x initial_disposed_after_exit Hin).
    + intros s st0. apply sessionListener_after_exit.
Qed.

(** ** C3 and C4: the continuous run handler *)

Section Scheduler.

Variable getOrCreateFile : str -> option TestItem.

Local Abbreviation elapse := (Continuous.elapse getOrCreateFile).
Local Abbreviation runTrace := (Continuous.runTrace getOrCreateFile).
Local Abbreviation rerunInclude := (Continuous.rerunInclude getOrCreateFile).


(** A change the guard ignores leaves the pending set and the issued runs
    as they are, and leaves no timer running. *)
Lemma onFileChanged_ignored (req : TestRunRequest) (now : nat)
  (e : FileChangeEvent) (st : Sched) :
  ignored req (change_uri e) = true ->
  onFileChanged req now e st =
  mkSched (queuedFiles st) None (subscribed st) (issued st).
Proof. intros H. unfold onFileChanged. now rewrite H. Qed.

(** A change the guard lets through, arriving before the running timer is
    due: the pending set is updated and the timer restarted; nothing is
    issued. *)
Lemma qualifying_change (req : TestRunRequest) (now : nat) (e : FileChangeEvent)
  (q : list str) (d : option nat) (i : list TestRunRequest) :
  ignored req (change_uri e) = false ->
  not_due d now ->
  Continuous.handle req now (FileChanged e) (elapse req now (mkSched q d true i)) =
  mkSched (apply_change q e) (Some (now + DEBOUNCE)) true i.
Proof.
  intros Hq Hd.
  assert (elapse req now (mkSched q d true i) = mkSched q d true i) as ->.
  { unfold Continuous.elapse. cbn [debounced]. destruct d as [due|]; [|reflexivity].
    cbn in Hd. replace (due <=? now) with false by (symmetry; apply Nat.leb_gt; lia).
    reflexivity. }
  cbn [Continuous.handle subscribed]. unfold onFileChanged, apply_change.
  cbn [queuedFiles subscribed issued]. now rewrite Hq.
Qed.

(** Coalescing: any number of such changes leaves one timer running, due
    one debounce after the last change, with the net pending set and
    nothing issued; when that timer fires, one request is issued and the
    pending set is cleared. *)
Lemma window_coalesces (req : TestRunRequest) (evs : list (nat * FileChangeEvent))
  (t : nat) (e : FileChangeEvent) (q : list str) (d : option nat)
  (i : list TestRunRequest) :
  inWindow req d (evs ++ [(t, e)]) ->
  let st := runTrace req (asInputs (evs ++ [(t, e)])) (mkSched q d true i) in
  st = mkSched (fold_left apply_change (map snd (evs ++ [(t, e)])) q)
               (Some (t + DEBOUNCE)) true i /\
  forall now, t + DEBOUNCE <= now ->
    elapse req now st =
    mkSched [] None true
      (i ++ [mkRequest (Some (rerunInclude req (queuedFiles st)))
                       (exclude req) (profile req) true]).
Proof.
  cbn zeta. revert q d. induction evs as [|[t0 e0] evs IH]; intros q d Hw.
  - destruct Hw as (Hq & Hd & _). cbn [app asInputs map fst snd Continuous.runTrace fold_left].
    rewrite (qualifying_change req t e q d i Hq Hd). split; [reflexivity|].
    intros now Hnow. unfold Continuous.elapse. cbn [debounced].
    replace (t + DEBOUNCE <=? now) with true by (symmetry; apply Nat.leb_le; lia).
    reflexivity.
  - destruct Hw as (Hq & Hd & Hw).
    cbn [app asInputs map fst snd Continuous.runTrace fold_left].
    rewrite (qualifying_change req t0 e0 q d i Hq Hd).
    apply (IH (apply_change q e0) (Some (t0 + DEBOUNCE)) Hw).
Qed.


End Scheduler.


(** C4 (the code at the failing input): for a request that includes file
    A only, a change of A starts the timer, and a change of the file C,
    which is not included, half a second later clears that timer before the
    guard returns: the pending set still holds A, no timer runs, and no run
    is ever issued for the change of A. *)
Theorem ignored_change_cancels_pending_rerun
  (getOrCreateFile : str -> option TestItem) :
  let req := mkRequest (Some [Fixture.fileA]) None None true in
  let A := lit "file:///w/src/a.spec.ts" in
  let C := lit "file:///w/src/c.spec.ts" in
  let before := Continuous.runTrace getOrCreateFile req [(0, add A)] start in
  let after := Continuous.runTrace getOrCreateFile req [(0, add A); (500, add C)] start in
  ignored req A = false /\
  ignored req C = true /\
  queuedFiles before = [A] /\ debounced before = Some 1000 /\
  queuedFiles after = [A] /\ debounced after = None /\
  (forall now, issued (Continuous.elapse getOrCreateFile req now after) = []) /\
  issued (Continuous.elapse getOrCreateFile req 1000 before) =
    [mkRequest (Some [Fixture.fileA]) None None true].
Proof.
  cbn zeta.
  repeat match goal with |- _ /\ _ => split end; intros; reflexivity.
Qed.

(* ===================================================================== *)
(** * Further properties of the continuous run handler *)
(* ===================================================================== *)

Section SchedulerTraces.

Variable getOrCreateFile : str -> option TestItem.
Variable req : TestRunRequest.

Local Abbreviation elapse := (Continuous.elapse getOrCreateFile req).
Local Abbreviation handle := (Continuous.handle req).
Local Abbreviation runTrace := (Continuous.runTrace getOrCreateFile req).

Lemma runTrace_app (tr tr' : list (nat * Input)) (st : Sched) :
  runTrace (tr ++ tr') st = runTrace tr' (runTrace tr st).
Proof.
  revert st. induction tr as [|[t i] tr IH]; intros st; [reflexivity|].
  cbn [app Continuous.runTrace]. apply IH.
Qed.

(** A handler that is unsubscribed with no timer running stays as it is. *)
Lemma unsubscribed_is_inert (tr : list (nat * Input)) (st : Sched) :
  subscribed st = false -> debounced st = None -> runTrace tr st = st.
Proof.
  revert st. induction tr as [|[t i] tr IH]; intros st Hs Hd; [reflexivity|].
  cbn [Continuous.runTrace].
  assert (handle t i (elapse t st) = st) as ->.
  { unfold Continuous.elapse. rewrite Hd. destruct i as [e|]; cbn [Continuous.handle].
    - now rewrite Hs.
    - destruct st as [q d s i']. cbn in *. subst. reflexivity. }
  now apply IH.
Qed.

Lemma elapse_keeps_subscription (t : nat) (st : Sched) :
  subscribed (elapse t st) = subscribed st /\
  (debounced st = None -> elapse t st = st) /\
  (debounced (elapse t st) = None \/ debounced (elapse t st) = debounced st).
Proof.
  unfold Continuous.elapse. destruct (debounced st) as [due|] eqn:E.
  - destruct (due <=? t); cbn; rewrite ?E;
      repeat match goal with |- _ /\ _ => split end; auto; discriminate.
  - rewrite E. auto.
Qed.

Lemma runTrace_no_timer_when_unsubscribed (tr : list (nat * Input)) (st : Sched) :
  no_timer_when_unsubscribed st -> no_timer_when_unsubscribed (runTrace tr st).
Proof.
  revert st. induction tr as [|[t i] tr IH]; intros st H; [assumption|].
  cbn [Continuous.runTrace]. apply IH. unfold no_timer_when_unsubscribed in *.
  destruct (elapse_keeps_subscription t st) as (Hs & _ & Hd).
  destruct i as [e|]; cbn [Continuous.handle].
  - destruct (subscribed (elapse t st)) eqn:E.
    + unfold onFileChanged. destruct (ignored req (change_uri e)); cbn; congruence.
    + intros _. rewrite Hs in E. destruct Hd as [Hd|Hd]; [assumption|].
      rewrite Hd. now apply H.
  - reflexivity.
Qed.

(** X10: once cancellation is requested, nothing more is ever issued,
    whatever changes arrive and however much time passes: the requests
    issued are those issued up to the cancellation. *)
Theorem cancellation_is_final (tr1 tr2 : list (nat * Input)) (t : nat) :
  let st1 := elapse t (runTrace tr1 start) in
  let fin := runTrace (tr1 ++ (t, Cancelled) :: tr2) start in
  issued fin = issued st1 /\
  debounced fin = None /\
  subscribed fin = false /\
  forall later, elapse later fin = fin.
Proof.
  cbn zeta. rewrite runTrace_app. cbn [Continuous.runTrace Continuous.handle].
  rewrite unsubscribed_is_inert by reflexivity.
  repeat split.
Qed.

Lemma onTimeout_rerun_of (st : Sched) :
  Forall (rerun_of req) (issued st) ->
  Forall (rerun_of req) (issued (Continuous.onTimeout getOrCreateFile req st)).
Proof.
  intros H. unfold Continuous.onTimeout. cbn [issued].
  apply Forall_app. split; [assumption|]. constructor; [|constructor].
  unfold rerun_of. cbn. repeat split.
  eexists. split; [reflexivity|]. intros orig Ho.
  unfold Continuous.rerunInclude. rewrite Ho. eexists. reflexivity.
Qed.

Lemma runTrace_rerun_of (tr : list (nat * Input)) (st : Sched) :
  Forall (rerun_of req) (issued st) -> Forall (rerun_of req) (issued (runTrace tr st)).
Proof.
  revert st. induction tr as [|[t i] tr IH]; intros st H; [assumption|].
  cbn [Continuous.runTrace]. apply IH.
  assert (Forall (rerun_of req) (issued (elapse t st))) as He.
  { unfold Continuous.elapse. destruct (debounced st) as [due|]; [|assumption].
    destruct (due <=? t); [now apply onTimeout_rerun_of|assumption]. }
  destruct i as [e|]; cbn [Continuous.handle].
  - destruct (subscribed (elapse t st)); [|assumption].
    unfold onFileChanged. destruct (ignored req (change_uri e)); [assumption|].
    destruct (removed e); assumption.
  - assumption.
Qed.

(** X11: every request the handler issues, along any sequence of inputs, is
    continuous, carries the exclude list and the profile of the original
    request, and has an explicit include list; when the original request
    had an include list, the new one is a sub-list of it, in its order. *)
Theorem reruns_narrow_the_request (tr : list (nat * Input)) :
  Forall (rerun_of req) (issued (runTrace tr start)).
Proof. apply runTrace_rerun_of. constructor. Qed.

(** X13: a change the guard ignores leaves no timer running, in whatever
    state it arrives: the pending set is kept as it was, and nothing is
    issued for it however much time passes afterwards. *)
Theorem ignored_change_leaves_no_timer
  (tr : list (nat * Input)) (t : nat) (e : FileChangeEvent) :
  ignored req (change_uri e) = true ->
  let before := elapse t (runTrace tr start) in
  let fin := runTrace (tr ++ [(t, FileChanged e)]) start in
  debounced fin = None /\
  queuedFiles fin = queuedFiles before /\
  issued fin = issued before /\
  forall later, elapse later fin = fin.
Proof.
  intros Hig. cbn zeta. rewrite runTrace_app. cbn [Continuous.runTrace Continuous.handle].
  set (st := runTrace tr start).
  assert (no_timer_when_unsubscribed (elapse t st)) as Hinv.
  { assert (no_timer_when_unsubscribed st) as H0
      by (apply runTrace_no_timer_when_unsubscribed; intros H; discriminate H).
    unfold no_timer_when_unsubscribed in *.
    destruct (elapse_keeps_subscription t st) as (Hs & _ & [Hd|Hd]); [auto|].
    rewrite Hs, Hd. exact H0. }
  assert (debounced (if subscribed (elapse t st)
                     then onFileChanged req t e (elapse t st)
                     else elapse t st) = None) as Hd.
  { destruct (subscribed (elapse t st)) eqn:E.
    - now rewrite (onFileChanged_ignored req t e _ Hig).
    - now apply Hinv. }
  split; [exact Hd|]. split; [|split].
  - destruct (subscribed (elapse t st)); [|reflexivity].
    now rewrite (onFileChanged_ignored req t e _ Hig).
  - destruct (subscribed (elapse t st)); [|reflexivity].
    now rewrite (onFileChanged_ignored req t e _ Hig).
  - intros later. unfold Continuous.elapse at 1. now rewrite Hd.
Qed.

(** When the changes of a window leave the pending set
    empty, the timer still fires and a request with an empty include list is
    issued. *)
Lemma empty_window_still_fires (evs : list (nat * FileChangeEvent))
  (t : nat) (e : FileChangeEvent) (q : list str) (d : option nat)
  (i : list TestRunRequest) (now : nat) :
  inWindow req d (evs ++ [(t, e)]) ->
  fold_left apply_change (map snd (evs ++ [(t, e)])) q = [] ->
  t + DEBOUNCE <= now ->
  elapse now (runTrace (asInputs (evs ++ [(t, e)])) (mkSched q d true i)) =
  mkSched [] None true (i ++ [mkRequest (Some []) (exclude req) (profile req) true]).
Proof.
  intros Hw Hq Hnow.
  destruct (window_coalesces getOrCreateFile req evs t e q d i Hw) as [Hst Hfire].
  cbn zeta in Hst, Hfire. rewrite (Hfire now Hnow), Hst. cbn [queuedFiles]. rewrite Hq.
  unfold Continuous.rerunInclude. destruct (include req) as [inc|]; [|reflexivity].
  f_equal. f_equal. f_equal. f_equal.
  induction inc as [|x inc IH]; [reflexivity|]. cbn [List.filter].
  destruct (uri x); cbn; assumption.
Qed.

End SchedulerTraces.

(** X12: a window of changes that leaves the pending set empty (a file
    changed and then deleted, or only deleted) still ends in one rerun, whose
    include list is empty; and for an empty include list [prepareArgs] adds
    no filter, so that the vector is the one of a run without a selection. *)
Theorem empty_pending_set_runs_unfiltered
  (getOrCreateFile : str -> option TestItem) (req : TestRunRequest)
  (evs : list (nat * FileChangeEvent)) (t : nat) (e : FileChangeEvent) (now : nat)
  (h : Host) (r : AngularTestRunner) (baseArgs : list str) :
  inWindow req None (evs ++ [(t, e)]) ->
  fold_left apply_change (map snd (evs ++ [(t, e)])) [] = [] ->
  t + DEBOUNCE <= now ->
  issued (Continuous.elapse getOrCreateFile req now
            (Continuous.runTrace getOrCreateFile req
               (asInputs (evs ++ [(t, e)])) start)) =
    [mkRequest (Some []) (exclude req) (profile req) true] /\
  prepareArgs h r baseArgs (Some []) = prepareArgs h r baseArgs None.
Proof.
  intros Hw Hq Hnow. split.
  - unfold start.
    now rewrite (empty_window_still_fires getOrCreateFile req evs t e [] None [] now Hw Hq Hnow).
  - unfold prepareArgs. destruct (getReporters h); cbn; [|reflexivity].
    now rewrite app_nil_r.
Qed.

Lemma empty_pending_set_runs_unfiltered_witness :
  let req := mkRequest None None None true in
  let A := lit "file:///w/src/a.spec.ts" in
  issued (Continuous.elapse (fun _ => None) req 1500
            (Continuous.runTrace (fun _ => None) req
               (asInputs ([(0, mkChange A false)] ++ [(400, mkChange A true)])) start)) =
    [mkRequest (Some []) None None true] /\
  prepareArgs Fixture.host Fixture.runner [] (Some []) =
  prepareArgs Fixture.host Fixture.runner [] None.
Proof.
  cbn zeta.
  apply (empty_pending_set_runs_unfiltered (fun _ => None)
           (mkRequest None None None true)
           [(0, mkChange (lit "file:///w/src/a.spec.ts") false)]
           400 (mkChange (lit "file:///w/src/a.spec.ts") true) 1500
           Fixture.host Fixture.runner []).
  - cbn. unfold DEBOUNCE. repeat split; lia.
  - reflexivity.
  - unfold DEBOUNCE. lia.
Defined.

Lemma ignored_change_leaves_no_timer_witness :
  let req := mkRequest (Some [Fixture.fileA]) None None true in
  let A := lit "file:///w/src/a.spec.ts" in
  let C := mkChange (lit "file:///w/src/c.spec.ts") false in
  let before := Continuous.elapse (fun _ => None) req 500
                  (Continuous.runTrace (fun _ => None) req [(0, add A)] start) in
  let fin := Continuous.runTrace (fun _ => None) req
               ([(0, add A)] ++ [(500, FileChanged C)]) start in
  debounced fin = None /\
  queuedFiles fin = queuedFiles before /\
  issued fin = issued before /\
  forall later, Continuous.elapse (fun _ => None) req later fin = fin.
Proof.
  cbn zeta.
  apply (ignored_change_leaves_no_timer (fun _ => None)
           (mkRequest (Some [Fixture.fileA]) None None true)
           [(0, add (lit "file:///w/src/a.spec.ts"))] 500
           (mkChange (lit "file:///w/src/c.spec.ts") false)).
  reflexivity.
Defined.

(** X24: any number of changes that the guard lets through, each arriving
    before the timer of the one before it is due, issue nothing while they
    arrive and leave one timer, due one debounce after the last of them;
    when it fires, exactly one request is issued, for the net pending set,
    and the set is cleared. *)
Theorem any_window_yields_one_rerun
  (getOrCreateFile : str -> option TestItem) (req : TestRunRequest)
  (evs : list (nat * FileChangeEvent)) (t : nat) (e : FileChangeEvent) :
  inWindow req None (evs ++ [(t, e)]) ->
  let st := Continuous.runTrace getOrCreateFile req (asInputs (evs ++ [(t, e)])) start in
  issued st = [] /\
  debounced st = Some (t + DEBOUNCE) /\
  queuedFiles st = fold_left apply_change (map snd (evs ++ [(t, e)])) [] /\
  forall now, t + DEBOUNCE <= now ->
    issued (Continuous.elapse getOrCreateFile req now st) =
      [mkRequest (Some (Continuous.rerunInclude getOrCreateFile req (queuedFiles st)))
                 (exclude req) (profile req) true] /\
    queuedFiles (Continuous.elapse getOrCreateFile req now st) = [] /\
    debounced (Continuous.elapse getOrCreateFile req now st) = None.
Proof.
  intros Hw.
  destruct (window_coalesces getOrCreateFile req evs t e [] None [] Hw) as [Hst Hfire].
  cbn zeta in *. unfold start. rewrite Hst. cbn [issued debounced queuedFiles].
  repeat split; try reflexivity.
  all: intros; rewrite Hst in Hfire; rewrite (Hfire now) by assumption; reflexivity.
Qed.

Lemma any_window_yields_one_rerun_witness :
  let req := mkRequest None None None true in
  let A := lit "file:///w/src/a.spec.ts" in
  let B := lit "file:///w/src/b.spec.ts" in
  let evs := [(0, mkChange A false); (300, mkChange B false); (600, mkChange A false)] in
  let st := Continuous.runTrace (fun _ => Some Fixture.fileA) req
              (asInputs (evs ++ [(900, mkChange B true)])) start in
  issued st = [] /\
  debounced st = Some (900 + DEBOUNCE) /\
  queuedFiles st = [A].
Proof.
  cbn zeta.
  destruct (any_window_yields_one_rerun (fun _ => Some Fixture.fileA)
              (mkRequest None None None true)
              [(0, mkChange (lit "file:///w/src/a.spec.ts") false);
               (300, mkChange (lit "file:///w/src/b.spec.ts") false);
               (600, mkChange (lit "file:///w/src/a.spec.ts") false)]
              900 (mkChange (lit "file:///w/src/b.spec.ts") true))
    as (H1 & H2 & H3 & _).
  - cbn. unfold DEBOUNCE. repeat split; lia.
  - split; [exact H1|]. split; [exact H2|]. rewrite H3. reflexivity.
Defined.

(* ===================================================================== *)
(** * Further properties of the debug flow *)
(* ===================================================================== *)

(** X8: with the attach configuration present, an exception of
    [prepareArgs] (the reporters scan) leaves [debug] with the wait server
    opened and nothing else done: no subprocess is spawned and no handler is
    registered that would close the server. *)
Theorem debug_throws_after_opening_the_server
  (h : Host) (r : AngularTestRunner) (configs : list DebugConfiguration)
  (baseArgs : list str) (filter : option (list TestItem)) (e : str) :
  (exists c, In c configs /\ cfg_name c = ATTACH_CONFIG_NAME) ->
  prepareArgs h r baseArgs filter = Throw e ->
  runDebug h r (Some configs) baseArgs filter = ([Listen], Throw e).
Proof.
  intros (c & Hc & Hn) Hargs. unfold runDebug, debug.
  destruct (find _ configs) as [c'|] eqn:F.
  - unfold mbind, createWaitServer, emit, lift. cbn. now rewrite Hargs.
  - exfalso. apply (find_none _ _ F) in Hc. rewrite Hn, str_eqb_refl in Hc. discriminate.
Qed.

Lemma debug_throws_after_opening_the_server_witness :
  runDebug MalformedConfig.host Fixture.runner
    (Some [mkConfig "Attach to VS Code" "pwa-chrome" "attach"]) [] None =
  ([Listen], Throw TypeError_split).
Proof.
  apply debug_throws_after_opening_the_server.
  - eexists. split; [now left|reflexivity].
  - reflexivity.
Defined.

Lemma join_starts_with_npm_test (rest : list str) :
  startsWith "npm test --" (join " " (lit "npm" :: lit "test" :: lit "--" :: rest)) = true.
Proof. destruct rest; reflexivity. Qed.

Lemma prepareArgs_head (h : Host) (r : AngularTestRunner) (baseArgs : list str)
  (filter : option (list TestItem)) (args : list str) :
  prepareArgs h r baseArgs filter = Ok args ->
  exists rest, args = lit "npm" :: lit "test" :: lit "--" :: rest.
Proof.
  unfold prepareArgs. destruct (getReporters h) as [rep|e]; cbn [JS.bind]; [|discriminate].
  unfold fixedArgs. cbn [getDefaultArgs map app keep_truthy flat_map truthy].
  destruct filter as [sel|].
  - destruct (resolveSelection h sel) as [g p]. intros [= <-]. eexists. reflexivity.
  - intros [= <-]. eexists. reflexivity.
Qed.

(** X9: [run] spawns exactly one subprocess, in the first workspace folder,
    with the prepared arguments joined by spaces, a command line that starts
    with [npm test --]; when [prepareArgs] throws or there is no workspace
    folder, it throws without having spawned anything. *)
Theorem run_spawns_npm_test
  (h : Host) (r : AngularTestRunner) (workspaceFolders : option (list str))
  (baseArgs : list str) (filter : option (list TestItem)) :
  match Running.runRun h r workspaceFolders baseArgs filter with
  | (log, Ok args) =>
      prepareArgs h r baseArgs filter = Ok args /\
      exists folder rest,
        workspaceFolders = Some (folder :: rest) /\
        log = [Spawn (join " " args) folder] /\
        startsWith "npm test --" (join " " args) = true
  | (log, Throw _) =>
      log = [] /\
      ((exists e, prepareArgs h r baseArgs filter = Throw e) \/
       workspaceFolders = None \/ workspaceFolders = Some [])
  end.
Proof.
  unfold Running.runRun, Running.run, mbind, lift, emit, ret.
  destruct (prepareArgs h r baseArgs filter) as [args|e] eqn:Hargs.
  - destruct workspaceFolders as [[|folder rest]|]; cbn.
    + split; [reflexivity|]. right. now right.
    + split; [reflexivity|]. exists folder, rest. repeat split.
      destruct (prepareArgs_head h r baseArgs filter args Hargs) as (tl & ->).
      apply join_starts_with_npm_test.
    + split; [reflexivity|]. right. now left.
  - cbn. split; [reflexivity|]. left. now exists e.
Qed.

Lemma set_nth_length (i : nat) (v : option nat) (l : list (option nat)) :
  length (set_nth i v l) = length l.
Proof.
  revert i. induction l as [|x l IH]; intros [|i]; cbn; auto.
Qed.

Lemma set_nth_other (i j : nat) (v : option nat) (l : list (option nat)) :
  i <> j -> nth_error (set_nth i v l) j = nth_error l j.
Proof.
  revert i j. induction l as [|x l IH]; intros [|i] [|j] H; cbn; auto;
    try congruence.
Qed.

Lemma nth_error_some_nonempty {A} (l : list A) (i : nat) (x : A) :
  nth_error l i = Some x -> l <> [].
Proof. intros H E. rewrite E in H. now destruct i. Qed.

Lemma step_trackers_need_root (e : Event) (st : State) :
  trackers_need_root st -> trackers_need_root (fst (step e st)).
Proof.
  unfold trackers_need_root. intros [Hr Ht]. destruct e; cbn [step].
  - destruct (listening st); [|now split]. unfold onConnection.
    destruct (ready st) eqn:R; cbn; rewrite ?R; now split.
  - destruct (factoryActive st); [|now split]. cbn [fst].
    unfold createDebugAdapterTracker.
    destruct (parentSession session) as [p|]; [|now split].
    destruct (same_session (Some p) (rootSession st)) eqn:S; [|now split].
    cbn. split.
    + intros _. now destruct (trackers st).
    + intros _. destruct (rootSession st); [discriminate|discriminate S].
  - cbn [fst]. unfold onWillReceiveMessage.
    destruct (nth_error (trackers st) tracker) as [[k|]|] eqn:N; try now split.
    destruct (is_launch_or_attach (command m)); [|now split].
    cbn. pose proof (nth_error_some_nonempty _ _ _ N) as Hne.
    split; intros _; [|now apply Ht].
    intros E. apply (f_equal (@length _)) in E. rewrite set_nth_length in E.
    destruct (trackers st); [now apply Hne|discriminate].
  - unfold onDidSendMessage.
    destruct (nth_error (trackers st) tracker) as [k|] eqn:N; [|now split].
    destruct (is_response (type m) && strict_eq (request_seq m) k); [|now split].
    cbn. split; [intros _; exact (nth_error_some_nonempty _ _ _ N)|exact Ht].
  - destruct (listenerActive st); [|now split]. unfold sessionListener.
    destruct (str_eqb (name s) ATTACH_CONFIG_NAME && undefined_session (rootSession st));
      [|now split].
    destruct (exited st); [now split|]. cbn. split; [exact Hr|discriminate].
  - destruct (exited st); [now split|]. cbn. now split.
Qed.

Lemma run_trackers_need_root (tr : list Event) (st : State) :
  trackers_need_root st -> trackers_need_root (fst (run tr st)).
Proof.
  revert st. induction tr as [|e tr IH]; intros st H; [assumption|].
  rewrite run_cons. cbn [fst]. apply IH. now apply step_trackers_need_root.
Qed.

(** X14: the gate becomes ready only in a run in which a session named like
    the attach configuration has started before the subprocess exited: with
    no such root session no tracker is ever created, and only a tracker
    calls [server.ready()]. *)
Theorem gate_opens_only_with_root_session (tr : list Event) :
  ready (fst (run tr initial)) = true ->
  exists root,
    firstAttach tr = Some root /\
    rootSession (fst (run tr initial)) = Some root /\
    trackers (fst (run tr initial)) <> [].
Proof.
  intros R.
  assert (trackers_need_root (fst (run tr initial))) as [Hr Ht].
  { apply run_trackers_need_root. split; [discriminate|intros E; now elim E]. }
  assert (rootSession (fst (run tr initial)) = firstAttach tr) as Hroot
    by (apply run_firstAttach; reflexivity).
  destruct (rootSession (fst (run tr initial))) as [root|] eqn:E.
  - exists root. repeat split; [now symmetry|now apply Hr].
  - exfalso. now apply (Ht (Hr R)).
Qed.

Lemma gate_opens_only_with_root_session_witness :
  let root := mkSession 1 "Attach to VS Code" None in
  let child := mkSession 2 "page" (Some 1) in
  let attach := mkMessage (Some (lit "request")) (Some (lit "attach")) (Some 7) None in
  let reply := mkMessage (Some (lit "response")) (Some (lit "attach")) (Some 8) (Some 7) in
  let tr := [SessionStarted root; CreateTracker child; Connect 5;
             WillReceive 0 attach; DidSend 0 reply] in
  exists r,
    firstAttach tr = Some r /\
    rootSession (fst (run tr initial)) = Some r /\
    trackers (fst (run tr initial)) <> [].
Proof.
  cbn zeta. apply gate_opens_only_with_root_session. reflexivity.
Defined.

(** X15: once a tracker has recorded the sequence number of a launch or
    attach request, no later message and no other event changes it. *)
Theorem initRequestId_is_recorded_once
  (tr tr' : list Event) (i k : nat) :
  nth_error (trackers (fst (run tr initial))) i = Some (Some k) ->
  nth_error (trackers (fst (run (tr ++ tr') initial))) i = Some (Some k).
Proof.
  rewrite run_app. cbn [fst]. generalize (fst (run tr initial)). clear tr.
  induction tr' as [|e tr' IH]; intros st H; [assumption|].
  rewrite run_cons. cbn [fst]. apply IH. clear IH.
  destruct e; cbn [step]; try assumption.
  - destruct (listening st); [|assumption]. unfold onConnection.
    destruct (ready st); assumption.
  - destruct (factoryActive st); [|assumption]. cbn [fst].
    unfold createDebugAdapterTracker.
    destruct (parentSession session); [|assumption].
    destruct (same_session _ _); [|assumption].
    cbn. rewrite nth_error_app1; [assumption|].
    apply nth_error_Some. congruence.
  - cbn [fst]. unfold onWillReceiveMessage.
    destruct (nth_error (trackers st) tracker) as [[k'|]|] eqn:N; try assumption.
    destruct (is_launch_or_attach (command m)); [|assumption].
    cbn. rewrite set_nth_other; [assumption|]. intros ->. congruence.
  - unfold onDidSendMessage. destruct (nth_error (trackers st) tracker); [|assumption].
    destruct (_ && _); assumption.
  - destruct (listenerActive st); [|assumption]. unfold sessionListener.
    destruct (_ && _); [|assumption]. destruct (exited st); assumption.
  - destruct (exited st); assumption.
Qed.

Lemma initRequestId_is_recorded_once_witness :
  let root := mkSession 1 "Attach to VS Code" None in
  let child := mkSession 2 "page" (Some 1) in
  let attach := mkMessage (Some (lit "request")) (Some (lit "attach")) (Some 7) None in
  let launch := mkMessage (Some (lit "request")) (Some (lit "launch")) (Some 9) None in
  nth_error (trackers (fst (run ([SessionStarted root; CreateTracker child;
                                  WillReceive 0 attach] ++
                                 [WillReceive 0 launch; ProcessExit]) initial))) 0 =
  Some (Some 7).
Proof.
  cbn zeta. apply initRequestId_is_recorded_once. reflexivity.
Defined.

Lemma step_disposed_once_exited (e : Event) (st : State) :
  disposed_once_exited st -> disposed_once_exited (fst (step e st)).
Proof.
  unfold disposed_once_exited, all_disposed. intros H.
  step_cases e; intros E;
    try (specialize (H E)); try (specialize (H eq_refl));
    intuition congruence.
Qed.

Lemma run_disposed_once_exited (tr : list Event) (st : State) :
  disposed_once_exited st -> disposed_once_exited (fst (run tr st)).
Proof.
  revert st. induction tr as [|e tr IH]; intros st H; [assumption|].
  rewrite run_cons. cbn [fst]. apply IH. now apply step_disposed_once_exited.
Qed.

Lemma step_after_exit (e : Event) (st : State) :
  all_disposed st ->
  all_disposed (fst (step e st)) /\
  rootSession (fst (step e st)) = rootSession st /\
  onReady (fst (step e st)) = onReady st /\
  length (trackers (fst (step e st))) = length (trackers st) /\
  Forall (fun x => exists s, x = SocketEnd s /\ In s (onReady st)) (snd (step e st)).
Proof.
  unfold all_disposed. intros (He & Hl & Hs & Hf).
  destruct e; cbn [step]; rewrite ?Hl, ?Hs, ?Hf, ?He; cbn [fst snd];
    try (repeat split; auto; constructor).
  - unfold onWillReceiveMessage.
    destruct (nth_error (trackers st) tracker) as [[k|]|];
      try (repeat split; auto; constructor).
    destruct (is_launch_or_attach (command m)); cbn;
      repeat split; auto; try apply set_nth_length; constructor.
  - unfold onDidSendMessage.
    destruct (nth_error (trackers st) tracker); [|repeat split; auto; constructor].
    destruct (_ && _); cbn; repeat split; auto; try constructor.
    apply Forall_forall. intros x Hx. apply in_map_iff in Hx as (s & <- & Hs').
    now exists s.
Qed.

(** X16: after the subprocess has exited, no event changes the recorded
    root session, the queue of waiting connections or the number of
    trackers, nothing is disposed or stopped a second time, and the only
    thing that can still happen is that a response seen by an existing
    tracker closes the connections already waiting: the exit itself closes
    none of them. *)
Theorem nothing_new_after_exit (tr1 tr2 : list Event) :
  let st := fst (run (tr1 ++ [ProcessExit]) initial) in
  rootSession (fst (run tr2 st)) = rootSession st /\
  onReady (fst (run tr2 st)) = onReady st /\
  length (trackers (fst (run tr2 st))) = length (trackers st) /\
  Forall (fun x => exists s, x = SocketEnd s /\ In s (onReady st)) (snd (run tr2 st)) /\
  (forall s, ~ In (SocketEnd s) (snd (step ProcessExit (fst (run tr1 initial))))).
Proof.
  cbn zeta.
  assert (all_disposed (fst (run (tr1 ++ [ProcessExit]) initial))) as Hd.
  { rewrite run_app. cbn [fst]. rewrite run_cons. cbn [run fst].
    pose proof (run_disposed_once_exited tr1 initial) as H.
    assert (disposed_once_exited initial) as H0 by (intros E; discriminate E).
    specialize (H H0). cbn [step].
    destruct (exited (fst (run tr1 initial))) eqn:E; [now apply H|].
    cbn. unfold all_disposed. cbn. auto. }
  split; [|split; [|split; [|split]]].
  5: { intros s. cbn [step]. destruct (exited (fst (run tr1 initial))); [intros []|].
       cbn. destruct (rootSession (fst (run tr1 initial))); cbn; intuition discriminate. }
  all: revert Hd; generalize (fst (run (tr1 ++ [ProcessExit]) initial)); clear tr1;
    induction tr2 as [|e tr2 IH]; intros st Hd;
    [first [reflexivity | constructor]|];
    rewrite run_cons; cbn [fst snd];
    destruct (step_after_exit e st Hd) as (Hd' & Hr & Hq & Hn & Hf);
    specialize (IH _ Hd').
  - now rewrite IH.
  - now rewrite IH.
  - now rewrite IH.
  - apply Forall_app. split; [exact Hf|]. rewrite Hq in IH. exact IH.
Qed.

(* ===================================================================== *)
(** * Further properties of the argument builder *)
(* ===================================================================== *)

Lemma map_TChar_injective (a b : str) : map TChar a = map TChar b -> a = b.
Proof.
  revert b. induction a as [|x a IH]; intros [|y b] H; try discriminate; [reflexivity|].
  inversion H as [[Hx Hm]]. f_equal. now apply IH.
Qed.

(** X1: [escapeRe] is injective: two names have the same escaped text only
    if they are the same name, so that different cases never share a
    name-match expression. *)
Theorem escapeRe_injective (a b : str) : escapeRe a = escapeRe b <-> a = b.
Proof.
  split; [|now intros ->].
  intros H. apply map_TChar_injective.
  pose proof (@tokenize_escapeRe a [] [] eq_refl) as Ha.
  pose proof (@tokenize_escapeRe b [] [] eq_refl) as Hb.
  rewrite !app_nil_r in Ha, Hb. rewrite H in Ha. congruence.
Qed.

Lemma escapeRe_length (s : str) :
  length (escapeRe s) = length s + length (List.filter is_special s).
Proof.
  induction s as [|c s IH]; [reflexivity|].
  cbn [escapeRe flat_map List.filter]. fold (escapeRe s).
  destruct (is_special c); cbn [app length]; rewrite IH; lia.
Qed.

(** X2: [escapeRe] adds one character for each special character of the
    name and nothing else; it leaves a name unchanged exactly when the name
    holds no special character. *)
Theorem escapeRe_grows_by_specials (s : str) :
  length (escapeRe s) = length s + length (List.filter is_special s) /\
  (escapeRe s = s <-> List.filter is_special s = []).
Proof.
  split; [apply escapeRe_length|]. split.
  - intros H. apply (f_equal (@length _)) in H. rewrite escapeRe_length in H.
    destruct (List.filter is_special s); [reflexivity|cbn in H; lia].
  - intros H. apply escapeRe_plain.
    induction s as [|c s IH]; [reflexivity|]. cbn [List.filter forallb] in *.
    destruct (is_special c); [discriminate|]. cbn [negb andb]. now apply IH.
Qed.

Lemma keep_truthy_app (xs ys : list (option str)) :
  keep_truthy (xs ++ ys) = keep_truthy xs ++ keep_truthy ys.
Proof. unfold keep_truthy. apply flat_map_app. Qed.

Lemma keep_truthy_map_Some (l : list str) :
  keep_truthy (map Some l) = List.filter nonemptyb l.
Proof.
  unfold keep_truthy. induction l as [|x l IH]; [reflexivity|].
  cbn [map flat_map List.filter]. rewrite IH. now destruct x.
Qed.

(** X3: without a selection the argument vector is [npm test --], then the
    caller's base arguments in their order with the empty ones dropped, then
    the config flag and the reporters flag when they are not empty, then
    [--watch] for a continuous run and [--no-watch] otherwise (also when the
    mode is not given), [--browsers=ChromeHeadless], and [--code-coverage]
    for the coverage profile only; an exception of the reporters scan is
    passed on. *)
Theorem prepareArgs_without_selection
  (h : Host) (r : AngularTestRunner) (baseArgs : list str) :
  prepareArgs h r baseArgs None =
  match getReporters h with
  | Throw e => Throw e
  | Ok reporters =>
      Ok ([lit "npm"; lit "test"; lit "--"] ++
          List.filter nonemptyb baseArgs ++
          optional (getConfigName h) ++
          optional reporters ++
          [match continuousMode r with
           | Some true => lit "--watch"
           | _ => lit "--no-watch"
           end;
           lit "--browsers=ChromeHeadless"] ++
          match runProfileKind r with
          | Coverage => [lit "--code-coverage"]
          | _ => []
          end)
  end.
Proof.
  unfold prepareArgs. destruct (getReporters h) as [rep|e]; cbn [JS.bind]; [|reflexivity].
  f_equal. unfold fixedArgs.
  rewrite !keep_truthy_app, (keep_truthy_map_Some baseArgs).
  destruct (getConfigName h) as [|c cn], rep as [|c' rep'];
    destruct (continuousMode r) as [[|]|]; destruct (runProfileKind r); reflexivity.
Qed.

(** X4: [--grep] is added exactly when the selection holds a case or a
    suite, and [--run] pairs exactly when some selected item is a file or
    has a file among its ancestors. *)
Theorem filter_flags_presence (h : Host) (sel : list TestItem) :
  (grepArgs (fst (resolveSelection h sel)) = [] <-> nameExprs sel = []) /\
  (runArgs (snd (resolveSelection h sel)) = [] <->
   forall t, In t sel -> itemPaths h t = []).
Proof.
  split.
  - rewrite resolve_grep. destruct (nameExprs sel); cbn; split; congruence.
  - split.
    + intros H t Ht. destruct (itemPaths h t) as [|p ps] eqn:E; [reflexivity|].
      assert (In p (snd (resolveSelection h sel))) as Hin.
      { apply resolve_In. exists t. split; [assumption|]. rewrite E. now left. }
      destruct (snd (resolveSelection h sel)); [destruct Hin|discriminate H].
    + intros H. destruct (snd (resolveSelection h sel)) as [|p ps] eqn:E; [reflexivity|].
      assert (In p (snd (resolveSelection h sel))) as Hin by (rewrite E; now left).
      apply resolve_In in Hin as (t & Ht & Hp). rewrite (H t Ht) in Hp. destruct Hp.
Qed.

(** ** [getConfigName] *)

Lemma split_go_last (c : ascii) (dir name acc : str) :
  existsb (Ascii.eqb c) name = false ->
  last (split_go [c] 0 acc (dir ++ c :: name)) [] = name.
Proof.
  intros Hn. revert acc. induction dir as [|x dir IH]; intros acc.
  - cbn [app split_go startsWith]. rewrite Ascii.eqb_refl. cbn [andb length Nat.sub].
    rewrite (split_absent c name [] Hn). reflexivity.
  - cbn [app split_go startsWith].
    destruct (Ascii.eqb c x); cbn [andb length Nat.sub].
    + specialize (IH []).
      destruct (split_go_nonempty [c] (dir ++ c :: name) 0 []) as (p & ps & E).
      rewrite E in *. exact IH.
    + apply IH.
Qed.

(** X5: with a karma configuration file found ([karma.conf.ts] before
    [karma.conf.js]), the config flag is [--karma-config=] followed by the
    last segment of the first file's path, the directories dropped; with
    none found it is empty. *)
Theorem getConfigName_names_last_segment (h : Host) :
  (karmaConfFiles h = [] -> getConfigName h = []) /\
  (forall dir name rest,
     karmaConfFiles h = (dir ++ "/"%char :: name) :: rest ->
     existsb (Ascii.eqb "/") name = false ->
     getConfigName h = lit "--karma-config=" ++ name) /\
  (findFiles h "karma.conf.ts" <> [] -> karmaConfFiles h = findFiles h "karma.conf.ts") /\
  (findFiles h "karma.conf.ts" = [] -> karmaConfFiles h = findFiles h "karma.conf.js").
Proof.
  unfold getConfigName, karmaConfFiles. repeat split.
  - intros ->. reflexivity.
  - intros dir name rest -> Hn. unfold split. change (lit "/") with ["/"%char].
    now rewrite split_go_last.
  - destruct (findFiles h "karma.conf.ts"); [congruence|reflexivity].
  - intros ->. reflexivity.
Qed.

(** ** The region [getReporters] scans *)

Lemma find_from_char (c : ascii) (pre post : str) :
  existsb (Ascii.eqb c) pre = false ->
  find_from [c] (pre ++ c :: post) = Some (length pre).
Proof.
  induction pre as [|x pre IH]; intros H.
  - cbn. now rewrite Ascii.eqb_refl.
  - cbn in H. apply orb_false_iff in H as [Hx Hp].
    cbn [app find_from startsWith]. rewrite Hx. cbn [andb].
    rewrite (IH Hp). reflexivity.
Qed.

Lemma find_from_char_absent (c : ascii) (s : str) :
  existsb (Ascii.eqb c) s = false -> find_from [c] s = None.
Proof.
  induction s as [|x s IH]; intros H; [reflexivity|].
  cbn in H. apply orb_false_iff in H as [Hx Hs].
  cbn [find_from startsWith]. rewrite Hx. cbn [andb]. now rewrite (IH Hs).
Qed.

Lemma scan_of_slice (content body : str) :
  includes content "reporters: " = true ->
  slice content (indexOf content "reporters: " 0)
    (indexOf content "]" (Z.to_nat (indexOf content "reporters: " 0))) =
  lit "reporters: [" ++ body ->
  existsb (Ascii.eqb "[") body = false ->
  scanReporters content =
  Ok (lit "--reporters=" ++ join "," (map cleanEntry (split body ", "))).
Proof.
  intros Hinc Hs Hb. unfold scanReporters. rewrite Hinc, Hs.
  unfold split at 1. change (lit "[") with ["["%char].
  cbn [lit list_ascii_of_string app split_go startsWith Ascii.eqb Bool.eqb andb
       length Nat.sub rev].
  rewrite (split_absent "[" body [] Hb). reflexivity.
Qed.

Lemma indexOf_first (content pre tail : str) :
  content = pre ++ tail ->
  find_from "reporters: " content = Some (length pre) ->
  includes content "reporters: " = true /\
  indexOf content "reporters: " 0 = Z.of_nat (length pre) /\
  skipn (length pre) content = tail /\
  (length content <? length pre) = false.
Proof.
  intros -> Hf. unfold includes, indexOf. cbn [Nat.ltb Nat.leb skipn]. rewrite Hf.
  repeat split.
  - rewrite skipn_app, skipn_all, Nat.sub_diag. reflexivity.
  - apply Nat.ltb_ge. rewrite length_app. lia.
Qed.

(** X6: when the first ["reporters: "] of the content is followed by [[],
    some text without brackets and then []], the reporters flag is made of
    that text alone, whatever precedes and follows: it is split at [", "],
    each entry loses its first two single quotes and its surrounding white
    space, and the entries are joined by commas after [--reporters=]. *)
Theorem getReporters_scans_first_bracket_list (pre body post : str) :
  find_from "reporters: " (pre ++ lit "reporters: [" ++ body ++ "]"%char :: post) =
    Some (length pre) ->
  existsb (Ascii.eqb "[") body = false ->
  existsb (Ascii.eqb "]") body = false ->
  scanReporters (pre ++ lit "reporters: [" ++ body ++ "]"%char :: post) =
  Ok (lit "--reporters=" ++ join "," (map cleanEntry (split body ", "))).
Proof.
  intros Hf Hb Hc.
  set (content := pre ++ lit "reporters: [" ++ body ++ "]"%char :: post) in *.
  destruct (indexOf_first content pre _ eq_refl Hf) as (Hinc & Hi & Hk & Hlen).
  apply scan_of_slice; [assumption| |assumption].
  rewrite Hi, Nat2Z.id.
  assert (indexOf content "]" (length pre) =
          Z.of_nat (length pre + (12 + length body))) as ->.
  { unfold indexOf. rewrite Hlen, Hk.
    change (lit "reporters: [" ++ body ++ "]"%char :: post)
      with ((lit "reporters: [" ++ body) ++ "]"%char :: post).
    change (lit "]") with ["]"%char].
    rewrite find_from_char.
    - rewrite length_app. reflexivity.
    - rewrite existsb_app, Hc. reflexivity. }
  unfold slice, clamp_index.
  assert (length content = length pre + (12 + length body) + S (length post)) as Hl.
  { unfold content. rewrite !length_app. cbn [length lit list_ascii_of_string]. lia. }
  replace (Z.of_nat (length pre) <? 0)%Z with false by (symmetry; apply Z.ltb_ge; lia).
  replace (Z.of_nat (length pre + (12 + length body)) <? 0)%Z with false
    by (symmetry; apply Z.ltb_ge; lia).
  rewrite !Z.min_l by lia.
  rewrite Nat2Z.id, Hk.
  replace (Z.to_nat (Z.of_nat (length pre + (12 + length body)) - Z.of_nat (length pre)))
    with (length (lit "reporters: [" ++ body) + 0)
    by (rewrite length_app; cbn [lit list_ascii_of_string length]; lia).
  rewrite app_assoc, firstn_app_2. cbn [firstn]. now rewrite app_nil_r.
Qed.

Lemma getReporters_scans_first_bracket_list_witness :
  scanReporters
    (lit "module.exports = { " ++ lit "reporters: [" ++ lit "'progress', 'kjhtml'" ++
     "]"%char :: lit ", port: 1 }") =
  Ok (lit "--reporters=" ++
      join "," (map cleanEntry (split "'progress', 'kjhtml'" ", "))).
Proof.
  apply getReporters_scans_first_bracket_list; reflexivity.
Defined.

(** X7: when no []] follows the first ["reporters: ["], [indexOf] answers
    -1 and the slice ends one character before the end of the content: the
    last character of the list is lost, and with nothing after the bracket
    the scan throws. *)
Theorem getReporters_without_closing_bracket (pre body : str) :
  find_from "reporters: " (pre ++ lit "reporters: [" ++ body) = Some (length pre) ->
  existsb (Ascii.eqb "[") body = false ->
  existsb (Ascii.eqb "]") body = false ->
  scanReporters (pre ++ lit "reporters: [" ++ body) =
  match body with
  | [] => Throw TypeError_split
  | _ :: _ =>
      Ok (lit "--reporters=" ++ join "," (map cleanEntry (split (removelast body) ", ")))
  end.
Proof.
  intros Hf Hb Hc.
  set (content := pre ++ lit "reporters: [" ++ body) in *.
  destruct (indexOf_first content pre _ eq_refl Hf) as (Hinc & Hi & Hk & Hlen).
  assert (indexOf content "]" (length pre) = (-1)%Z) as Hend.
  { unfold indexOf. rewrite Hlen, Hk. change (lit "]") with ["]"%char].
    rewrite find_from_char_absent; [reflexivity|].
    rewrite existsb_app, Hc. reflexivity. }
  assert (length content = length pre + (12 + length body)) as Hl.
  { unfold content. rewrite !length_app. cbn [length lit list_ascii_of_string]. lia. }
  assert (slice content (Z.of_nat (length pre)) (-1) =
          removelast (lit "reporters: [" ++ body)) as Hslice.
  { unfold slice, clamp_index.
    replace (Z.of_nat (length pre) <? 0)%Z with false by (symmetry; apply Z.ltb_ge; lia).
    replace (-1 <? 0)%Z with true by reflexivity.
    rewrite Z.min_l, Z.max_l by lia. rewrite Nat2Z.id, Hk.
    rewrite removelast_firstn_len. f_equal. rewrite length_app.
    cbn [lit list_ascii_of_string length]. lia. }
  destruct body as [|b body'].
  - unfold scanReporters. rewrite Hinc, Hi, Nat2Z.id, Hend, Hslice. reflexivity.
  - apply scan_of_slice; [assumption| |].
    + rewrite Hi, Nat2Z.id, Hend, Hslice.
      rewrite removelast_app by discriminate. reflexivity.
    + clear -Hb. revert Hb. generalize b.
      induction body' as [|y l IH]; intros x Hx; [reflexivity|].
      cbn [removelast existsb] in *. apply orb_false_iff in Hx as [H1 H2].
      rewrite H1. cbn [orb]. now apply IH.
Qed.

Lemma getReporters_without_closing_bracket_witness :
  scanReporters (lit "// " ++ lit "reporters: [" ++ lit "'dots', 'junit'") =
  Ok (lit "--reporters=" ++
      join "," (map cleanEntry (split (removelast (lit "'dots', 'junit'")) ", "))) /\
  join "," (map cleanEntry (split (removelast (lit "'dots', 'junit'")) ", ")) =
  lit "dots,junit".
Proof.
  split; [|reflexivity].
  apply (getReporters_without_closing_bracket (lit "// ") (lit "'dots', 'junit'"));
    reflexivity.
Defined.

(* ===================================================================== *)
(** * Properties of the runner discovery *)
(* ===================================================================== *)

Lemma includes_middle (pre p post : str) : includes (pre ++ p ++ post) p = true.
Proof.
  unfold includes.
  assert (exists i, find_from p (pre ++ p ++ post) = Some i) as (i & ->); [|reflexivity].
  induction pre as [|x pre (i & IH)].
  - exists 0. cbn [app]. destruct p as [|c p]; [now destruct post|].
    pose proof (startsWith_app (c :: p) post) as Hs.
    cbn [app find_from] in *. now rewrite Hs.
  - cbn [app find_from]. destruct (startsWith p (x :: pre ++ p ++ post)).
    + now exists 0.
    + rewrite IH. now exists (S i).
Qed.

(** The last piece of a split at a character is the end of the string. *)
Lemma split_go_last_suffix (c : ascii) (s acc : str) :
  exists pre, rev acc ++ s = pre ++ last (split_go [c] 0 acc s) [].
Proof.
  revert acc. induction s as [|x s IH]; intros acc.
  - exists []. cbn. now rewrite app_nil_r.
  - cbn [split_go startsWith]. destruct (Ascii.eqb c x); cbn [andb length Nat.sub].
    + destruct (IH []) as (pre & Hpre). cbn [rev app] in Hpre.
      destruct (split_go_nonempty [c] s 0 []) as (p & ps & E).
      exists (rev acc ++ x :: pre).
      rewrite E in *.
      change (last (rev acc :: p :: ps) []) with (last (p :: ps) (@nil ascii)).
      rewrite <- app_assoc. cbn [app]. now rewrite <- Hpre.
    + destruct (IH (x :: acc)) as (pre & Hpre). exists pre.
      cbn [rev] in Hpre. now rewrite <- app_assoc in Hpre.
Qed.

Lemma last_part_angular (n : str) :
  last (split n "\") [] = lit "angular.json" -> includes n "angular" = true.
Proof.
  intros H. destruct (split_go_last_suffix "\" n []) as (pre & Hpre).
  unfold split in H. change (lit "\") with ["\"%char] in H.
  rewrite H in Hpre. cbn [rev app] in Hpre. rewrite Hpre.
  apply (includes_middle pre (lit "angular") (lit ".json")).
Qed.

Lemma getRunnerName_ignores_readAngularJson
  (readPackageJson readAngularJson readAngularJson'
     : Extension.TextDocument -> result (option Extension.TestRunner))
  (d : Extension.TextDocument) :
  Extension.getRunnerName readPackageJson readAngularJson d =
  Extension.getRunnerName readPackageJson readAngularJson' d.
Proof.
  unfold Extension.getRunnerName.
  destruct (Extension.pickedName d) as [n|]; [|reflexivity].
  cbn [Extension.nameIncludes].
  destruct (includes n "angular") eqn:A.
  - now rewrite !orb_true_r.
  - destruct (includes n "karma" || includes n "jest" || false); [reflexivity|].
    destruct (str_eqb (last (split n "\") []) "package.json"); [reflexivity|].
    destruct (str_eqb (last (split n "\") []) "angular.json") eqn:E; [|reflexivity].
    apply str_eqb_eq in E. rewrite (last_part_angular n E) in A. discriminate.
Qed.

(** X17: [getRunnerName] never asks [readAngularJson]: a file name whose
    last part is [angular.json] contains ["angular"], and for such a name
    the answer is given by the name alone before the file would be read. *)
Theorem readAngularJson_is_never_consulted
  (readPackageJson readAngularJson readAngularJson'
     : Extension.TextDocument -> result (option Extension.TestRunner))
  (d : Extension.TextDocument) :
  Extension.getRunnerName readPackageJson readAngularJson d =
  Extension.getRunnerName readPackageJson readAngularJson' d.
Proof. apply getRunnerName_ignores_readAngularJson. Qed.

Lemma pickedName_spec (d : Extension.TextDocument) :
  Extension.pickedName d =
  if includes (Extension.fileName d) "package.json"
     || includes (Extension.fileName d) "angular.json"
  then Some (Extension.fileName d) else None.
Proof.
  unfold Extension.pickedName, Extension.baseFileNames. cbn [fold_left].
  destruct (includes (Extension.fileName d) "package.json"),
           (includes (Extension.fileName d) "angular.json"); reflexivity.
Qed.

(** X18: the file name is split at backslashes before it is compared with
    [package.json]; for a name without a backslash (a path with forward
    slashes) other than the bare [package.json], the scripts of the package
    file are never read and the answer is the one the name alone gives. *)
Theorem getRunnerName_of_slash_path
  (readPackageJson readAngularJson
     : Extension.TextDocument -> result (option Extension.TestRunner))
  (d : Extension.TextDocument) :
  existsb (Ascii.eqb "\") (Extension.fileName d) = false ->
  Extension.fileName d <> lit "package.json" ->
  Extension.getRunnerName readPackageJson readAngularJson d =
  Ok (runnerByName (Extension.fileName d)).
Proof.
  intros Hb Hn.
  rewrite (getRunnerName_ignores_readAngularJson readPackageJson readAngularJson
             (fun _ => Ok None) d).
  unfold Extension.getRunnerName, runnerByName. rewrite pickedName_spec.
  set (n := Extension.fileName d) in *.
  destruct (includes n "package.json" || includes n "angular.json"); [|reflexivity].
  cbn [Extension.nameIncludes andb option_map].
  destruct (includes n "karma" || includes n "jest" || includes n "angular");
    [reflexivity|].
  unfold split. change (lit "\") with ["\"%char].
  rewrite (split_absent "\" n [] Hb). cbn [rev app last].
  destruct (str_eqb n "package.json") eqn:E; [apply str_eqb_eq in E; contradiction|].
  now destruct (str_eqb n "angular.json").
Qed.

Lemma getRunnerName_of_slash_path_witness :
  Extension.getRunnerName (fun _ => Ok (Some Extension.Angular)) (fun _ => Ok None)
    (Extension.mkDocument "/w/package.json" "file:///w/package.json") =
  Ok (runnerByName (lit "/w/package.json")) /\
  runnerByName (lit "/w/package.json") = None.
Proof.
  split; [|reflexivity].
  apply getRunnerName_of_slash_path; [reflexivity|discriminate].
Defined.

(** ** The scripts of package.json *)

Lemma scanScripts_from (scripts : Extension.Scripts) (r : Extension.TestRunner) :
  fold_left (fun testRunner kv =>
               match testRunner with
               | Some _ => testRunner
               | None => if includes (fst kv) "test"
                         then Extension.classifyScript (snd kv) else None
               end) scripts (Some r) = Some r.
Proof. induction scripts as [|kv scripts IH]; [reflexivity|exact IH]. Qed.

(** X19: the scripts are scanned in key order and the first one that
    decides gives the answer: scripts before it that do not decide are
    passed over, scripts after it are never looked at; when none decides
    the answer is [undefined]. *)
Theorem scanScripts_first_deciding_script
  (pre post : Extension.Scripts) (kv : str * str) (r : Extension.TestRunner) :
  (forall x, In x pre -> decides x = None) ->
  decides kv = Some r ->
  Extension.scanScripts (pre ++ kv :: post) = Some r /\
  Extension.scanScripts pre = None.
Proof.
  intros Hpre Hkv. unfold Extension.scanScripts.
  assert (fold_left (fun testRunner kv0 =>
                       match testRunner with
                       | Some _ => testRunner
                       | None => if includes (fst kv0) "test"
                                 then Extension.classifyScript (snd kv0) else None
                       end) pre None = None) as Hnone.
  { induction pre as [|x pre IH]; [reflexivity|]. cbn [fold_left].
    pose proof (Hpre x (or_introl eq_refl)) as Hx. unfold decides in Hx. rewrite Hx.
    apply IH. intros y Hy. apply Hpre. now right. }
  split; [|exact Hnone].
  rewrite fold_left_app, Hnone. cbn [fold_left].
  unfold decides in Hkv. rewrite Hkv. apply scanScripts_from.
Qed.

Lemma scanScripts_first_deciding_script_witness :
  Extension.scanScripts
    ([(lit "start", lit "ng serve"); (lit "test:lint", lit "eslint src")] ++
     (lit "test", lit "ng test") :: [(lit "test:ci", lit "karma start")]) =
  Some Extension.Angular /\
  Extension.scanScripts
    [(lit "start", lit "ng serve"); (lit "test:lint", lit "eslint src")] = None.
Proof.
  apply scanScripts_first_deciding_script.
  - intros x [<-|[<-|[]]]; reflexivity.
  - reflexivity.
Defined.

Lemma split_go_head (c : ascii) (s acc : str) :
  hd [] (split_go [c] 0 acc s) = rev acc ++ upto c s.
Proof.
  revert acc. induction s as [|x s IH]; intros acc.
  - cbn. now rewrite app_nil_r.
  - cbn [split_go startsWith upto]. destruct (Ascii.eqb c x); cbn [andb hd].
    + now rewrite app_nil_r.
    + rewrite IH. cbn [rev]. now rewrite <- app_assoc.
Qed.

Lemma upto_ng (v : str) :
  upto " " v = lit "ng" <-> v = lit "ng" \/ startsWith "ng " v = true.
Proof.
  unfold lit. cbn [list_ascii_of_string]. split.
  - intros H. destruct v as [|a v]; [discriminate|]. cbn [upto] in H.
    destruct (Ascii.eqb " " a); [discriminate|]. injection H as -> H.
    destruct v as [|b v]; [discriminate|]. cbn [upto] in H.
    destruct (Ascii.eqb " " b); [discriminate|]. injection H as -> H.
    destruct v as [|c v]; [now left|]. cbn [upto] in H.
    destruct (Ascii.eqb " " c) eqn:Ec; [|discriminate].
    apply Ascii.eqb_eq in Ec. subst c. right. reflexivity.
  - intros [->|H]; [reflexivity|]. apply startsWith_split in H. rewrite H. reflexivity.
Qed.

Lemma first_word_ng (v : str) :
  str_eqb (hd [] (split v " ")) "ng" = true <-> v = lit "ng" \/ startsWith "ng " v = true.
Proof.
  unfold split. change (lit " ") with [" "%char].
  rewrite split_go_head, str_eqb_eq. cbn [rev app]. apply upto_ng.
Qed.

(** X20: a script is taken for an Angular test script exactly when its
    command is [ng] or starts with [ng] and a space, and mentions neither
    karma nor jest (which are looked for first, anywhere in the command). *)
Theorem classifyScript_Angular (v : str) :
  Extension.classifyScript v = Some Extension.Angular <->
  includes v "karma" = false /\ includes v "jest" = false /\
  (v = lit "ng" \/ startsWith "ng " v = true).
Proof.
  unfold Extension.classifyScript.
  destruct (includes v "karma"); [split; [discriminate|intros [H _]; discriminate H]|].
  destruct (includes v "jest"); [split; [discriminate|intros (_ & H & _); discriminate H]|].
  destruct (str_eqb (hd [] (split v " ")) "ng") eqn:E.
  - apply first_word_ng in E. tauto.
  - split; [discriminate|]. intros (_ & _ & H). apply first_word_ng in H. congruence.
Qed.

(** ** The run profiles of [activate] *)

Section Discovery.

Variables readPackageJson readAngularJson
  : Extension.TextDocument -> result (option Extension.TestRunner).

Local Abbreviation getRunnerName := (Extension.getRunnerName readPackageJson readAngularJson).
Local Abbreviation discover := (Extension.discover readPackageJson readAngularJson).

Lemma discover_known (docs : list Extension.TextDocument) (r : Extension.TestRunner) :
  discover docs (Some r) = Ok (Some r).
Proof. induction docs as [|d docs IH]; [reflexivity|exact IH]. Qed.

Lemma discover_first (pre post : list Extension.TextDocument)
  (d : Extension.TextDocument) (answer : result (option Extension.TestRunner)) :
  (forall x, In x pre -> getRunnerName x = Ok None) ->
  getRunnerName d = answer ->
  discover (pre ++ d :: post) None =
  match answer with
  | Ok (Some r) => Ok (Some r)
  | Ok None => discover post None
  | Throw e => Throw e
  end.
Proof.
  intros Hpre Hd. induction pre as [|x pre IH]; cbn [app Extension.discover].
  - rewrite Hd. destruct answer as [[r|]|e]; cbn [JS.bind]; [apply discover_known| |];
      reflexivity.
  - rewrite (Hpre x (or_introl eq_refl)). cbn [JS.bind]. apply IH.
    intros y Hy. apply Hpre. now right.
Qed.

(** X21: the first open document with a runner name decides alone: the
    documents after it and the files of the workspace are not asked, the
    run profile "Angular Tests" is created when that name is Angular, and no
    run profile at all when it is Karma or Jest; an exception of the first
    document that does not answer [undefined] makes [activate] fail. *)
Theorem activate_profiles_follow_first_runner
  (pre post jsonFiles configFiles : list Extension.TextDocument)
  (d : Extension.TextDocument) :
  (forall x, In x pre -> getRunnerName x = Ok None) ->
  getRunnerName d <> Ok None ->
  Extension.activateProfiles readPackageJson readAngularJson
    (pre ++ d :: post) jsonFiles configFiles =
  match getRunnerName d with
  | Ok (Some Extension.Angular) => Ok [lit "Angular Tests"]
  | Ok _ => Ok []
  | Throw e => Throw e
  end.
Proof.
  intros Hpre Hd. unfold Extension.activateProfiles.
  rewrite (discover_first pre post d _ Hpre eq_refl).
  destruct (getRunnerName d) as [[[| |]|]|e]; cbn [JS.bind]; try reflexivity.
  now elim Hd.
Qed.

End Discovery.

Lemma activate_profiles_follow_first_runner_witness :
  Extension.activateProfiles (fun _ => Ok None) (fun _ => Ok None)
    ([Extension.mkDocument "/w/src/app.ts" "file:///w/src/app.ts"] ++
     Extension.mkDocument "/home/me/karma-demo/angular.json"
                          "file:///home/me/karma-demo/angular.json" ::
     [Extension.mkDocument "/w/angular.json" "file:///w/angular.json"])
    [] [] = Ok [].
Proof.
  apply (activate_profiles_follow_first_runner (fun _ => Ok None) (fun _ => Ok None)
           [Extension.mkDocument "/w/src/app.ts" "file:///w/src/app.ts"]
           [Extension.mkDocument "/w/angular.json" "file:///w/angular.json"] [] []
           (Extension.mkDocument "/home/me/karma-demo/angular.json"
                                 "file:///home/me/karma-demo/angular.json")).
  - intros x [<-|[]]. reflexivity.
  - discriminate.
Defined.

(** ** The items of test files *)

Section FileItems.

Variable getWorkspaceFolder : Extension.Uri -> option str.
Variable getId : Extension.Uri -> str -> str.

Local Abbreviation getOrCreateFile := (Extension.getOrCreateFile getWorkspaceFolder getId).

Lemma items_get_app (id k : str) (x : TestItem) (items : list (str * TestItem)) :
  Extension.items_get id (items ++ [(k, x)]) =
  match Extension.items_get id items with
  | Some item => Some item
  | None => if str_eqb k id then Some x else None
  end.
Proof.
  induction items as [|[k' y] items IH]; cbn [app Extension.items_get]; [reflexivity|].
  destruct (str_eqb k' id); [reflexivity|exact IH].
Qed.

(** X22: [getOrCreateFile] creates at most one item and only for a test
    file of a workspace folder; it never changes or removes an item the
    controller already holds; the item it returns is the one the controller
    holds under the file's id; and asking again for the same file returns
    that item and creates nothing. *)
Theorem getOrCreateFile_is_idempotent
  (items : list (str * TestItem)) (u : Extension.Uri) :
  let res := getOrCreateFile items u in
  getOrCreateFile (fst res) u = res /\
  (forall id item, Extension.items_get id items = Some item ->
                   Extension.items_get id (fst res) = Some item) /\
  (forall item, snd res = Some item ->
     exists folder,
       getWorkspaceFolder u = Some folder /\
       Extension.isTestPath (Extension.path u) = true /\
       Extension.items_get (getId u folder) (fst res) = Some item) /\
  (snd res = None -> fst res = items) /\
  (exists added, fst res = items ++ added /\ length added <= 1).
Proof.
  cbn zeta. unfold Extension.getOrCreateFile, Extension.getWorkspaceFolderForTestFile.
  destruct (Extension.isTestPath (Extension.path u)) eqn:T.
  2: { cbn. repeat split; auto; try discriminate.
       exists []. rewrite app_nil_r. split; [reflexivity|cbn; lia]. }
  destruct (getWorkspaceFolder u) as [folder|] eqn:F.
  2: { cbn. repeat split; auto; try discriminate.
       exists []. rewrite app_nil_r. split; [reflexivity|cbn; lia]. }
  destruct (Extension.items_get (getId u folder) items) as [existing|] eqn:G; cbn [fst snd].
  - rewrite ?G. repeat split; auto; try discriminate.
    + intros item [= <-]. exists folder. auto.
    + exists []. rewrite app_nil_r. split; [reflexivity|cbn; lia].
  - rewrite items_get_app, G, str_eqb_refl. repeat split; try discriminate.
    + intros id item H. rewrite items_get_app, H. reflexivity.
    + intros item [= <-]. exists folder. repeat split.
      now rewrite items_get_app, G, str_eqb_refl.
    + eexists. split; [reflexivity|cbn; lia].
Qed.

End FileItems.

(* ===================================================================== *)
(** * Properties of [getPendingTestMap] *)
(* ===================================================================== *)

Lemma map_set_keys (key : str) (item : Pending.TreeItem)
  (m : list (str * Pending.TreeItem)) (name : str) :
  In name (map fst (Pending.map_set key item m)) <-> name = key \/ In name (map fst m).
Proof.
  induction m as [|[k v] m IH]; cbn [Pending.map_set map fst In].
  - intuition.
  - destruct (str_eqb k key) eqn:E; cbn [map fst In].
    + apply str_eqb_eq in E. subst k. intuition.
    + rewrite IH. intuition.
Qed.

Lemma map_set_values (key : str) (item : Pending.TreeItem)
  (m : list (str * Pending.TreeItem)) (kv : str * Pending.TreeItem) :
  In kv (Pending.map_set key item m) -> kv = (key, item) \/ In kv m.
Proof.
  induction m as [|[k v] m IH]; cbn [Pending.map_set In].
  - intuition.
  - destruct (str_eqb k key) eqn:E; cbn [In].
    + apply str_eqb_eq in E. subst k. intuition.
    + intuition.
Qed.

Lemma pendingNames_unfold (t : Pending.TreeItem) :
  Pending.pendingNames t =
  match Pending.item_data_of t with
  | Some (TestCase fullName) => [fullName]
  | _ => flat_map Pending.pendingNames (Pending.children_of t)
  end.
Proof. destruct t as [i [[wf f|n|n]|] cs]; reflexivity. Qed.

Lemma item_size_unfold (t : Pending.TreeItem) :
  Pending.item_size t = Pending.collection_size (Pending.children_of t).
Proof. destruct t; reflexivity. Qed.

Lemma visitItems_spec (items : list Pending.TreeItem)
  (queue : list (list Pending.TreeItem)) (m : list (str * Pending.TreeItem)) :
  let res := Pending.visitItems items queue m in
  Pending.queue_size (fst res) < Pending.queue_size (items :: queue) /\
  (forall name,
     In name (map fst (snd res)) \/ In name (queueNames (fst res)) <->
     In name (map fst m) \/ In name (queueNames (items :: queue))) /\
  (case_entries m -> case_entries (snd res)).
Proof.
  cbn zeta. revert queue m. induction items as [|t items IH]; intros queue m.
  - cbn. split; [lia|]. split; [tauto|auto].
  - cbn [Pending.visitItems].
    assert (Pending.queue_size (items :: queue) + Pending.item_size t =
            Pending.queue_size ((t :: items) :: queue)) as Hsize
      by (unfold Pending.queue_size, Pending.collection_size, list_sum;
          cbn [map fold_right]; lia).
    assert (forall name, In name (queueNames ((t :: items) :: queue)) <->
                         In name (Pending.pendingNames t) \/
                         In name (queueNames (items :: queue))) as Hnames.
    { intros name. unfold queueNames. cbn [flat_map]. rewrite !in_app_iff. tauto. }
    pose proof (pendingNames_unfold t) as Hp. pose proof (item_size_unfold t) as Hs.
    destruct (Pending.item_data_of t) as [[wf f|n|n]|] eqn:D.
    + destruct (IH (Pending.children_of t :: queue) m) as (H1 & H2 & H3).
      split; [|split; [|exact H3]].
      * revert H1. rewrite <- Hsize, Hs. unfold Pending.queue_size, list_sum.
        cbn [map fold_right]. lia.
      * intros name. rewrite H2, Hnames, Hp. unfold queueNames. cbn [flat_map].
        rewrite !in_app_iff. tauto.
    + destruct (IH (Pending.children_of t :: queue) m) as (H1 & H2 & H3).
      split; [|split; [|exact H3]].
      * revert H1. rewrite <- Hsize, Hs. unfold Pending.queue_size, list_sum.
        cbn [map fold_right]. lia.
      * intros name. rewrite H2, Hnames, Hp. unfold queueNames. cbn [flat_map].
        rewrite !in_app_iff. tauto.
    + destruct (IH queue (Pending.map_set n t m)) as (H1 & H2 & H3).
      split; [|split].
      * rewrite <- Hsize. lia.
      * intros name. rewrite H2, Hnames, Hp, map_set_keys. cbn [In]. intuition.
      * intros Hm. apply H3. intros kv Hkv.
        apply map_set_values in Hkv as [->|Hkv]; [exact D|now apply Hm].
    + destruct (IH (Pending.children_of t :: queue) m) as (H1 & H2 & H3).
      split; [|split; [|exact H3]].
      * revert H1. rewrite <- Hsize, Hs. unfold Pending.queue_size, list_sum.
        cbn [map fold_right]. lia.
      * intros name. rewrite H2, Hnames, Hp. unfold queueNames. cbn [flat_map].
        rewrite !in_app_iff. tauto.
Qed.

Lemma loop_spec (fuel : nat) (queue : list (list Pending.TreeItem))
  (m : list (str * Pending.TreeItem)) :
  Pending.queue_size queue <= fuel ->
  exists titleMap,
    Pending.loop fuel queue m = Some titleMap /\
    (forall name, In name (map fst titleMap) <->
                  In name (map fst m) \/ In name (queueNames queue)) /\
    (case_entries m -> case_entries titleMap).
Proof.
  revert queue m. induction fuel as [|fuel IH]; intros queue m Hfuel.
  - destruct queue as [|top rest].
    + exists m. cbn. split; [reflexivity|]. split; [tauto|auto].
    + unfold Pending.queue_size, Pending.collection_size in Hfuel. cbn in Hfuel. lia.
  - destruct queue as [|top rest].
    + exists m. cbn. split; [reflexivity|]. split; [tauto|auto].
    + cbn [Pending.loop].
      destruct (visitItems_spec top rest m) as (H1 & H2 & H3). cbn zeta in *.
      destruct (Pending.visitItems top rest m) as [queue' m']. cbn [fst snd] in *.
      destruct (IH queue' m') as (titleMap & Hl & Hk & Hc); [lia|].
      exists titleMap. split; [exact Hl|]. split.
      * intros name. rewrite Hk. apply H2.
      * intros Hm. apply Hc. now apply H3.
Qed.

(** X23: [getPendingTestMap] terminates on every forest of test items, and
    the map it returns has as keys exactly the full names of the test cases
    found at or below the given items without passing through another test
    case (the children of a test case are not visited); every key is mapped
    to a test case of that full name. *)
Theorem getPendingTestMap_collects_the_cases (tests : list Pending.TreeItem) :
  exists titleMap,
    Pending.getPendingTestMap tests = Some titleMap /\
    (forall name, In name (map fst titleMap) <->
                  In name (flat_map Pending.pendingNames tests)) /\
    (forall name item, In (name, item) titleMap ->
                       Pending.item_data_of item = Some (TestCase name)).
Proof.
  unfold Pending.getPendingTestMap.
  destruct (loop_spec (Pending.queue_size [tests]) [tests] [] (le_n _))
    as (titleMap & Hl & Hk & Hc).
  exists titleMap. split; [exact Hl|]. split.
  - intros name. rewrite Hk. unfold queueNames. cbn [flat_map map In].
    rewrite app_nil_r. tauto.
  - intros name item Hin. apply (Hc (fun kv H => match H with end) (name, item) Hin).
Qed.
